(** * PatGPT2 chat front end: the streaming response consumer

    A shallow embedding of [handleSubmit] of
    [src/frontend/src/components/ChatInterface.jsx] and of the host
    operations it calls ([TextDecoder.decode], [String.prototype.split],
    [startsWith], [slice], [trim]), followed by the properties of the
    natural-language specification that were checked against it.

    A second part covers what is around the handler: the form and the
    element tree [ChatInterface] and [MessageList] render, and the sidebar
    of [src/frontend/src/App.jsx] ([App], [DocumentList],
    [DocumentUpload]).

    Data.
    - A JavaScript string is the list of its UTF-16 code units, each a [Z].
    - A byte of a network chunk is a [Z] in [0, 255]; ASCII text is the
      same list as bytes and as a string.
    - The message objects are shared and mutated, so they live in a heap
      and are named by their location; the React state [messages] is an
      array of locations.

    Effects.
    - The component is a state machine over the events that reach it: a
      change of the input, a submit, and the settling of the promises
      [handleSubmit] awaits.  Between two awaits the handler runs to the
      next await without interruption.
    - The handler an event runs is the one of the latest render, so it
      reads the current [input] and [loading].
    - The updater given to [setMessages] is applied when [setMessages] is
      called.  React may run it later, at the latest in the next render;
      the copy [{ ...assistantMessage }] made in it then holds what the
      object holds at that moment.  What is stated of the store after a
      line is what a render shows that comes after the line and before
      the object is changed again; nothing is stated that compares a
      copy with a later state of the object.
    - A thrown error carries a string [message]. *)

From Stdlib Require Import ZArith Lia Ascii String.
From stdpp Require Import base list.

Local Open Scope Z_scope.
Set Warnings "-register-all".

(** * The model *)

(** ** JavaScript strings *)

Abbreviation jsstring := (list Z).

(** An ASCII literal as a JavaScript string. *)
Fixpoint js (s : string) : jsstring :=
  match s with
  | EmptyString => []
  | String a r => Z.of_N (N_of_ascii a) :: js r
  end.

Arguments js : simpl never.

(** The same, with the apostrophe standing for the double quote, so that
    JSON text can be written down as a literal. *)
Definition jsq (s : string) : jsstring :=
  (fun c => if c =? 39 then 34 else c) <$> js s.

(** [s === t] on two strings. *)
Fixpoint str_eqb (s t : jsstring) : bool :=
  match s, t with
  | [], [] => true
  | a :: s', b :: t' => (a =? b) && str_eqb s' t'
  | _, _ => false
  end.

(** [s.startsWith(p)] *)
Fixpoint startsWith (p s : jsstring) : bool :=
  match p, s with
  | [], _ => true
  | a :: p', b :: s' => (a =? b) && startsWith p' s'
  | _ :: _, [] => false
  end.

(** [s.slice(n)] for [0 <= n]: the string without its first [n] code units. *)
Definition slice (n : nat) (s : jsstring) : jsstring := drop n s.

(** [s.split(sep)] for a separator of one code unit.  The empty string
    splits into one empty piece. *)
Fixpoint split (sep : Z) (s : jsstring) : list jsstring :=
  match s with
  | [] => [[]]
  | c :: r =>
      if c =? sep then [] :: split sep r
      else match split sep r with
           | l :: ls => (c :: l) :: ls
           | [] => [[c]]
           end
  end.

(** WhiteSpace and LineTerminator code units of ECMAScript, the ones
    [trim] removes. *)
Definition is_js_whitespace (c : Z) : bool :=
  (c =? 0x09) || (c =? 0x0A) || (c =? 0x0B) || (c =? 0x0C) || (c =? 0x0D)
  || (c =? 0x20) || (c =? 0xA0) || (c =? 0x1680)
  || ((0x2000 <=? c) && (c <=? 0x200A))
  || (c =? 0x2028) || (c =? 0x2029) || (c =? 0x202F) || (c =? 0x205F)
  || (c =? 0x3000) || (c =? 0xFEFF).

Fixpoint trimStart (s : jsstring) : jsstring :=
  match s with
  | c :: r => if is_js_whitespace c then trimStart r else s
  | [] => []
  end.

(** [s.trim()] *)
Definition trim (s : jsstring) : jsstring :=
  reverse (trimStart (reverse (trimStart s))).

(** A string as a condition: only the empty string is false. *)
Definition truthy (s : jsstring) : bool :=
  match s with
  | [] => false
  | _ :: _ => true
  end.

(** ** [new TextDecoder().decode(value)]

    The UTF-8 decoder of the WHATWG Encoding standard, error mode
    "replacement", run to the end of the queue: [decode] is called without
    [{stream: true}], so every call starts from a fresh decoder and
    flushes it. *)

Record utf8_state := {
  code_point : Z;
  bytes_seen : Z;
  bytes_needed : Z;
  lower_boundary : Z;
  upper_boundary : Z
}.

Definition utf8_init : utf8_state :=
  {| code_point := 0; bytes_seen := 0; bytes_needed := 0;
     lower_boundary := 0x80; upper_boundary := 0xBF |}.

Inductive utf8_action :=
| Emit (c : Z)
| Continue (s : utf8_state)
| DecodeError.

(** The handler's step for a byte read while no sequence is open. *)
Definition utf8_lead (b : Z) : utf8_action :=
  if (0x00 <=? b) && (b <=? 0x7F) then Emit b
  else if (0xC2 <=? b) && (b <=? 0xDF) then
    Continue {| code_point := Z.land b 0x1F; bytes_seen := 0; bytes_needed := 1;
                lower_boundary := 0x80; upper_boundary := 0xBF |}
  else if (0xE0 <=? b) && (b <=? 0xEF) then
    Continue {| code_point := Z.land b 0xF; bytes_seen := 0; bytes_needed := 2;
                lower_boundary := if b =? 0xE0 then 0xA0 else 0x80;
                upper_boundary := if b =? 0xED then 0x9F else 0xBF |}
  else if (0xF0 <=? b) && (b <=? 0xF4) then
    Continue {| code_point := Z.land b 0x7; bytes_seen := 0; bytes_needed := 3;
                lower_boundary := if b =? 0xF0 then 0x90 else 0x80;
                upper_boundary := if b =? 0xF4 then 0x8F else 0xBF |}
  else DecodeError.

Definition REPLACEMENT : Z := 0xFFFD.

(** The decoder's loop over the byte queue; the result is the list of code
    points.  A byte that does not continue the open sequence gives one
    U+FFFD and is read again as a lead byte; at the end of the queue an
    open sequence gives one U+FFFD. *)
Fixpoint utf8_run (s : utf8_state) (q : list Z) : list Z :=
  match q with
  | [] => if bytes_needed s =? 0 then [] else [REPLACEMENT]
  | b :: q' =>
      if bytes_needed s =? 0 then
        match utf8_lead b with
        | Emit c => c :: utf8_run utf8_init q'
        | Continue s' => utf8_run s' q'
        | DecodeError => REPLACEMENT :: utf8_run utf8_init q'
        end
      else if (b <? lower_boundary s) || (upper_boundary s <? b) then
        REPLACEMENT ::
        match utf8_lead b with
        | Emit c => c :: utf8_run utf8_init q'
        | Continue s' => utf8_run s' q'
        | DecodeError => REPLACEMENT :: utf8_run utf8_init q'
        end
      else
        let cp := Z.lor (Z.shiftl (code_point s) 6) (Z.land b 0x3F) in
        if bytes_seen s + 1 =? bytes_needed s then cp :: utf8_run utf8_init q'
        else utf8_run {| code_point := cp; bytes_seen := bytes_seen s + 1;
                         bytes_needed := bytes_needed s;
                         lower_boundary := 0x80; upper_boundary := 0xBF |} q'
  end.

(** [ignoreBOM] is false: a leading U+FEFF of the output is dropped. *)
Definition strip_bom (cps : list Z) : list Z :=
  match cps with
  | c :: r => if c =? 0xFEFF then r else cps
  | [] => []
  end.

(** A code point as UTF-16 code units. *)
Definition utf16 (c : Z) : jsstring :=
  if c <=? 0xFFFF then [c]
  else [0xD800 + Z.shiftr (c - 0x10000) 10; 0xDC00 + Z.land (c - 0x10000) 0x3FF].

Definition TextDecoder_decode (value : list Z) : jsstring :=
  strip_bom (utf8_run utf8_init value) ≫= utf16.

(** The UTF-8 encoding of a scalar value, as the server writes it. *)
Definition utf8_encode (c : Z) : list Z :=
  if c <=? 0x7F then [c]
  else if c <=? 0x7FF then [0xC0 + Z.shiftr c 6; 0x80 + Z.land c 0x3F]
  else if c <=? 0xFFFF then
    [0xE0 + Z.shiftr c 12; 0x80 + Z.land (Z.shiftr c 6) 0x3F; 0x80 + Z.land c 0x3F]
  else
    [0xF0 + Z.shiftr c 18; 0x80 + Z.land (Z.shiftr c 12) 0x3F;
     0x80 + Z.land (Z.shiftr c 6) 0x3F; 0x80 + Z.land c 0x3F].

Definition is_scalar (c : Z) : Prop :=
  (0 <= c <= 0xD7FF) \/ (0xE000 <= c <= 0x10FFFF).

(** A text, given by its scalar values, as bytes and as a JavaScript
    string. *)
Definition utf8_encode_all (cs : list Z) : list Z := cs ≫= utf8_encode.

Definition utf16_all (cs : list Z) : jsstring := cs ≫= utf16.

(** ** Values

    What [JSON.parse] returns, and [undefined] for a property that is not
    there.  A number is kept as the token of the text: the handler never
    computes with one.  An object is the list of its members in the order
    of the text; when a name is repeated the last member is the property. *)

Inductive value :=
| VUndefined
| VNull
| VBool (b : bool)
| VNumber (token : jsstring)
| VString (s : jsstring)
| VArray (items : list value)
| VObject (members : list (jsstring * value)).

Fixpoint own_property (k : jsstring) (ms : list (jsstring * value)) : option value :=
  match ms with
  | [] => None
  | (k', v) :: r =>
      match own_property k r with
      | Some w => Some w
      | None => if str_eqb k k' then Some v else None
      end
  end.

(** [data.k] for the names the handler reads ([type], [content], [sources],
    [error]): a TypeError ([None]) on [null] and [undefined], the own
    property of an object, and [undefined] elsewhere, since no prototype
    defines one of these names. *)
Definition get (data : value) (k : jsstring) : option value :=
  match data with
  | VUndefined | VNull => None
  | VObject ms => Some (default VUndefined (own_property k ms))
  | _ => Some VUndefined
  end.

(** [v === s] for a string literal [s]. *)
Definition is_string (v : value) (s : jsstring) : bool :=
  match v with
  | VString t => str_eqb t s
  | _ => false
  end.

(** ** Messages and the component's state *)

Inductive role_t := user | assistant.

(** A message object.  [sources] is [VUndefined] on the objects that are
    built without the property (the user message and the message of the
    [catch] block). *)
Record message := {
  role : role_t;
  content : jsstring;
  sources : value
}.

(** The body of the POST request. *)
Record request := {
  query : jsstring;
  req_collection : jsstring;
  conversation_id : jsstring;
  use_rag : bool
}.

(** Where a call of [handleSubmit] is suspended. *)
Inductive activation :=
| AwaitFetch
| AwaitRead (assistantMessage : nat).

(** The component: the heap of message objects, the three [useState]
    cells, the [collection] prop and the conversation id, the suspended
    call of [handleSubmit] if there is one, and the [fetch] calls made so
    far (oldest first). *)
Record state := {
  heap : list message;
  messages : list nat;
  input : jsstring;
  loading : bool;
  collection : jsstring;
  conversationId : jsstring;
  running : option activation;
  fetched : list request
}.

Definition set_heap (h : list message) (st : state) : state :=
  {| heap := h; messages := messages st; input := input st; loading := loading st;
     collection := collection st; conversationId := conversationId st;
     running := running st; fetched := fetched st |}.

(** [setMessages(f)].  The updater is applied at the call. *)
Definition setMessages (f : list nat -> list nat) (st : state) : state :=
  {| heap := heap st; messages := f (messages st); input := input st;
     loading := loading st; collection := collection st;
     conversationId := conversationId st; running := running st;
     fetched := fetched st |}.

Definition setInput (v : jsstring) (st : state) : state :=
  {| heap := heap st; messages := messages st; input := v; loading := loading st;
     collection := collection st; conversationId := conversationId st;
     running := running st; fetched := fetched st |}.

Definition setLoading (b : bool) (st : state) : state :=
  {| heap := heap st; messages := messages st; input := input st; loading := b;
     collection := collection st; conversationId := conversationId st;
     running := running st; fetched := fetched st |}.

Definition set_running (a : option activation) (st : state) : state :=
  {| heap := heap st; messages := messages st; input := input st;
     loading := loading st; collection := collection st;
     conversationId := conversationId st; running := a; fetched := fetched st |}.

(** [fetch(url, {body: r})]: the call is recorded. *)
Definition fetch (r : request) (st : state) : state :=
  {| heap := heap st; messages := messages st; input := input st;
     loading := loading st; collection := collection st;
     conversationId := conversationId st; running := running st;
     fetched := fetched st ++ [r] |}.

(** An object literal: a new object at the next free location. *)
Definition alloc (m : message) (st : state) : nat * state :=
  (length (heap st), set_heap (heap st ++ [m]) st).

(** An assignment to a property of the object at [l]. *)
Definition mutate (l : nat) (f : message -> message) (st : state) : state :=
  set_heap (alter f l (heap st)) st.

Definition set_content (c : jsstring) (m : message) : message :=
  {| role := role m; content := c; sources := sources m |}.

Definition set_sources (v : value) (m : message) : message :=
  {| role := role m; content := content m; sources := v |}.

(** [newMessages[newMessages.length - 1] = x] on a copy of the array.  On
    an empty array JavaScript would set the property ["-1"], which is no
    element: the list of elements stays empty. *)
Definition replaceLast (x : nat) (prev : list nat) : list nat :=
  <[(length prev - 1)%nat := x]> prev.

(** [setMessages(prev => { const n = [...prev]; n[n.length - 1] =
    { ...assistantMessage }; return n })]: the store's last element becomes
    a new object with the properties the in-progress object has now, that
    is, when the updater is run (see the assumptions at the head of the
    file). *)
Definition publish (am : nat) (st : state) : state :=
  match heap st !! am with
  | Some m => let '(c, st') := alloc m st in setMessages (replaceLast c) st'
  | None => st
  end.

(** What [MessageList] is given when the component renders: the objects
    the array holds, read through the heap. *)
Definition snapshot (st : state) : list (option message) :=
  (fun l => heap st !! l) <$> messages st.

(** The component as mounted. *)
Definition initial (collection conversationId : jsstring) : state :=
  {| heap := []; messages := []; input := []; loading := false;
     collection := collection; conversationId := conversationId;
     running := None; fetched := [] |}.

(** ** The host

    [JSON.parse], and the conversion to a string of a value that is no
    string (in [content += data.content] and in the template literal of
    the error branch), belong to the JavaScript engine.  The handler is
    modelled over any such pair; [None] is a thrown exception. *)

Class Host := {
  JSON_parse : jsstring -> option value;
  ToString : value -> option jsstring
}.

(** ** [handleSubmit] *)

Section Handler.

Context {host : Host}.

(** The string a value is concatenated as. *)
Definition to_str (v : value) : option jsstring :=
  match v with
  | VString s => Some s
  | _ => ToString v
  end.

(** The statements inside [try] after [JSON.parse], lines 49 to 65.  The
    result is [None] when one of them throws; each one that can throw
    does so before the first assignment of its branch. *)
Definition process_data (am : nat) (data : value) (st : state) : option state :=
  ty ← get data (js "type");
  if is_string ty (js "token") then
    c ← get data (js "content");
    s ← to_str c;
    Some (publish am (mutate am (fun m => set_content (content m ++ s) m) st))
  else if is_string ty (js "sources") then
    v ← get data (js "sources");
    Some (mutate am (set_sources v) st)
  else if is_string ty (js "error") then
    e ← get data (js "error");
    s ← to_str e;
    Some (publish am (mutate am (set_content (js "Error: " ++ s)) st))
  else Some st.

(** The body of [for (const line of lines)], lines 45 to 69.  The [catch]
    only logs. *)
Definition process_line (am : nat) (st : state) (line : jsstring) : state :=
  if startsWith (js "data: ") line then
    match JSON_parse (slice 6 line) with
    | Some data => default st (process_data am data st)
    | None => st
    end
  else st.

Definition process_lines (am : nat) (st : state) (lines : list jsstring) : state :=
  foldl (process_line am) st lines.

(** Lines 41 to 70 on the decoded chunk. *)
Definition process_text (am : nat) (st : state) (chunk : jsstring) : state :=
  process_lines am st (split 10 chunk).

(** Lines 41 to 70: one turn of the read loop for a chunk [value]. *)
Definition process_chunk (am : nat) (st : state) (value : list Z) : state :=
  process_text am st (TextDecoder_decode value).

(** Lines 11 to 29: the call up to [await fetch]. *)
Definition handleSubmit (st : state) : state :=
  if negb (truthy (trim (input st))) || loading st then st
  else
    let '(userMessage, st) :=
      alloc {| role := user; content := input st; sources := VUndefined |} st in
    let request :=
      {| query := input st; req_collection := collection st;
         conversation_id := conversationId st; use_rag := true |} in
    let st := setMessages (fun prev => prev ++ [userMessage]) st in
    let st := setInput [] st in
    let st := setLoading true st in
    set_running (Some AwaitFetch) (fetch request st).

(** Lines 31 to 38: the response has a body; up to the first
    [await reader.read()]. *)
Definition on_response (st : state) : state :=
  let '(assistantMessage, st) :=
    alloc {| role := assistant; content := []; sources := VArray [] |} st in
  let st := setMessages (fun prev => prev ++ [assistantMessage]) st in
  set_running (Some (AwaitRead assistantMessage)) st.

(** Lines 72 to 79: the [catch] block for an error whose [message] is
    [msg], then [setLoading(false)]. *)
Definition on_error (msg : jsstring) (st : state) : state :=
  let '(errorMessage, st) :=
    alloc {| role := assistant; content := js "Error: " ++ msg;
             sources := VUndefined |} st in
  let st := setMessages (fun prev => prev ++ [errorMessage]) st in
  set_running None (setLoading false st).

(** Line 39 and line 79: [done], then [setLoading(false)]. *)
Definition on_done (st : state) : state :=
  set_running None (setLoading false st).

(** What happens to the component.  [Change v] is [onChange] of the
    input ([setInput(e.target.value)]) and [Submit] is [onSubmit] of the
    form; the others settle the promise the handler awaits.
    [FetchNoBody msg] is a response whose [body] is [null]: [getReader]
    raises a TypeError with the engine's message [msg]. *)
Inductive event :=
| Change (v : jsstring)
| Submit
| FetchRejected (msg : jsstring)
| FetchNoBody (msg : jsstring)
| FetchResolved
| ReadChunk (value : list Z)
| ReadRejected (msg : jsstring)
| ReadDone.

(** One event.  The handler that runs is the one of the latest render, so
    it reads the current [input] and [loading].  A network event is
    [None] when no call is suspended on it.  In the states the component
    reaches the flag is set whenever a call is suspended (see [state_ok]
    below), so a submit is never accepted over a suspended call. *)
Definition step (st : state) (e : event) : option state :=
  match e, running st with
  | Change v, _ => Some (setInput v st)
  | Submit, _ => Some (handleSubmit st)
  | FetchRejected msg, Some AwaitFetch => Some (on_error msg st)
  | FetchNoBody msg, Some AwaitFetch => Some (on_error msg st)
  | FetchResolved, Some AwaitFetch => Some (on_response st)
  | ReadChunk value, Some (AwaitRead am) => Some (process_chunk am st value)
  | ReadRejected msg, Some (AwaitRead _) => Some (on_error msg st)
  | ReadDone, Some (AwaitRead _) => Some (on_done st)
  | _, _ => None
  end.

Fixpoint run (st : state) (es : list event) : option state :=
  match es with
  | [] => Some st
  | e :: es' => st' ← step st e; run st' es'
  end.

(** How the network answers one request. *)
Inductive outcome :=
| NoConnection (msg : jsstring)
| NoBody (msg : jsstring)
| StreamEnds (chunks : list (list Z))
| StreamFails (chunks : list (list Z)) (msg : jsstring).

Definition events_of (o : outcome) : list event :=
  match o with
  | NoConnection msg => [FetchRejected msg]
  | NoBody msg => [FetchNoBody msg]
  | StreamEnds chunks => FetchResolved :: (ReadChunk <$> chunks) ++ [ReadDone]
  | StreamFails chunks msg =>
      FetchResolved :: (ReadChunk <$> chunks) ++ [ReadRejected msg]
  end.

(** *** The records of the stream

    A line that carries a record: the prefix, then a payload that parses. *)
Definition record_line (line : jsstring) (data : value) : Prop :=
  startsWith (js "data: ") line = true /\ JSON_parse (slice 6 line) = Some data.

(** The three records the server sends, as the parsed payload shows them. *)
Definition is_token (data : value) (c : jsstring) : Prop :=
  get data (js "type") = Some (VString (js "token"))
  /\ get data (js "content") = Some (VString c).

Definition is_sources (data : value) (items : value) : Prop :=
  get data (js "type") = Some (VString (js "sources"))
  /\ get data (js "sources") = Some items.

Definition is_error (data : value) (text : jsstring) : Prop :=
  get data (js "type") = Some (VString (js "error"))
  /\ get data (js "error") = Some (VString text).

Definition token_line (line c : jsstring) : Prop :=
  exists data, record_line line data /\ is_token data c.

Definition sources_line (line : jsstring) (items : value) : Prop :=
  exists data, record_line line data /\ is_sources data items.

Definition error_line (line text : jsstring) : Prop :=
  exists data, record_line line data /\ is_error data text.

(** A line that is no record: no prefix at its start, a payload that does
    not parse, a payload with no [type] to read, or a [type] that is none
    of the three. *)
Definition unknown_type (data : value) : Prop :=
  match get data (js "type") with
  | None => True
  | Some ty =>
      is_string ty (js "token") = false
      /\ is_string ty (js "sources") = false
      /\ is_string ty (js "error") = false
  end.

Definition malformed_line (line : jsstring) : Prop :=
  startsWith (js "data: ") line = false
  \/ JSON_parse (slice 6 line) = None
  \/ exists data, JSON_parse (slice 6 line) = Some data /\ unknown_type data.

(** Every location of the store names an object. *)
Definition store_ok (st : state) : Prop :=
  Forall (fun l => (l < length (heap st))%nat) (messages st).

(** What the line loop leaves alone: every cell but [messages], and the
    number of elements of [messages]. *)
Definition same_frame (st st' : state) : Prop :=
  input st' = input st /\ loading st' = loading st /\ running st' = running st
  /\ fetched st' = fetched st /\ collection st' = collection st
  /\ conversationId st' = conversationId st
  /\ length (messages st') = length (messages st).

(** A token or error record whose payload is [payload]: what is appended
    to the content, or written after ["Error: "], once converted. *)
Definition carries (data payload : value) : Prop :=
  (get data (js "type") = Some (VString (js "token"))
   /\ get data (js "content") = Some payload)
  \/ (get data (js "type") = Some (VString (js "error"))
      /\ get data (js "error") = Some payload).

(** A line on which [setMessages] is called: a token or error record
    whose payload can be converted to a string. *)
Definition publishing_line (line : jsstring) : Prop :=
  exists data payload s,
    record_line line data /\ carries data payload /\ to_str payload = Some s.

(** A token or error record whose payload cannot be converted: the
    conversion throws before anything is assigned, and the [catch] logs. *)
Definition throwing_line (line : jsstring) : Prop :=
  exists data payload,
    record_line line data /\ carries data payload /\ to_str payload = None.

(** A line on which no setter is called: a malformed line, a sources
    record, or a record that throws. *)
Definition quiet_line (line : jsstring) : Prop :=
  malformed_line line \/ (exists items, sources_line line items) \/ throwing_line line.

(** The in-progress object is in the store at most as its last element. *)
Definition only_last (am : nat) (st : state) : Prop :=
  (am < length (heap st))%nat
  /\ exists pre x, messages st = pre ++ [x] /\ am ∉ pre.

(** The in-progress object is not in the store. *)
Definition detached (am : nat) (st : state) : Prop :=
  (am < length (heap st))%nat /\ am ∉ messages st.

(** What holds of every state the component reaches: the store names
    objects only, the flag is set exactly while a call is suspended, and
    the in-progress object of a suspended read loop exists and is in the
    store at most as its last element. *)
Definition state_ok (st : state) : Prop :=
  store_ok st
  /\ (loading st = true <-> is_Some (running st))
  /\ forall am, running st = Some (AwaitRead am) -> only_last am st \/ detached am st.

End Handler.

(** ** A reference [JSON.parse]

    The JSON grammar of ECMA-404, used to run the handler on concrete
    lines.  The fuel bounds the number of nested calls; twice the length
    of the text is enough, as every call reads at least one code unit. *)

Module Json.

Definition is_ws (c : Z) : bool :=
  (c =? 0x20) || (c =? 0x09) || (c =? 0x0A) || (c =? 0x0D).

Fixpoint skip_ws (s : jsstring) : jsstring :=
  match s with
  | c :: r => if is_ws c then skip_ws r else s
  | [] => []
  end.

Definition is_digit (c : Z) : bool := (48 <=? c) && (c <=? 57).

Definition hex_digit (c : Z) : option Z :=
  if (48 <=? c) && (c <=? 57) then Some (c - 48)
  else if (65 <=? c) && (c <=? 70) then Some (c - 55)
  else if (97 <=? c) && (c <=? 102) then Some (c - 87)
  else None.

(** The characters of a string after its opening quote, up to the closing
    one; the rest of the text follows. *)
Fixpoint string_body (s : jsstring) : option (jsstring * jsstring) :=
  match s with
  | [] => None
  | c :: r =>
      if c =? 34 then Some ([], r)
      else if c <? 0x20 then None
      else if c =? 92 then
        match r with
        | [] => None
        | e :: r1 =>
            if e =? 117 then
              match r1 with
              | h1 :: h2 :: h3 :: h4 :: r2 =>
                  a ← hex_digit h1; b ← hex_digit h2;
                  c ← hex_digit h3; d ← hex_digit h4;
                  '(t, rest) ← string_body r2;
                  Some ((a * 4096 + b * 256 + c * 16 + d) :: t, rest)
              | _ => None
              end
            else
              u ← (if (e =? 34) || (e =? 92) || (e =? 47) then Some e
                   else if e =? 98 then Some 8
                   else if e =? 102 then Some 12
                   else if e =? 110 then Some 10
                   else if e =? 114 then Some 13
                   else if e =? 116 then Some 9
                   else None);
              '(t, rest) ← string_body r1;
              Some (u :: t, rest)
        end
      else
        '(t, rest) ← string_body r;
        Some (c :: t, rest)
  end.

Fixpoint digits (s : jsstring) : jsstring * jsstring :=
  match s with
  | c :: r => if is_digit c then let '(d, rest) := digits r in (c :: d, rest)
              else ([], s)
  | [] => ([], [])
  end.

(** A number token: sign, integer part, fraction, exponent. *)
Definition number (s : jsstring) : option (jsstring * jsstring) :=
  let '(sign, s1) :=
    match s with
    | c :: r => if c =? 45 then ([c], r) else ([], s)
    | [] => ([], s)
    end in
  let '(int, s2) := digits s1 in
  match int with
  | [] => None
  | d :: ds =>
      if (d =? 48) && truthy ds then None
      else
        frac ← match s2 with
               | c :: r =>
                   if c =? 46 then
                     let '(f, rest) := digits r in
                     if truthy f then Some (c :: f, rest) else None
                   else Some ([], s2)
               | [] => Some ([], s2)
               end;
        let '(f, s3) := frac in
        ex ← match s3 with
             | c :: r =>
                 if (c =? 101) || (c =? 69) then
                   let '(sg, r1) :=
                     match r with
                     | g :: r' => if (g =? 43) || (g =? 45) then ([g], r') else ([], r)
                     | [] => ([], r)
                     end in
                   let '(x, rest) := digits r1 in
                   if truthy x then Some (c :: sg ++ x, rest) else None
                 else Some ([], s3)
             | [] => Some ([], s3)
             end;
        let '(x, s4) := ex in
        Some (sign ++ int ++ f ++ x, s4)
  end.

Fixpoint parse_value (fuel : nat) (s : jsstring) : option (value * jsstring) :=
  match fuel with
  | O => None
  | S fuel =>
      match skip_ws s with
      | [] => None
      | c :: r =>
          if c =? 123 then
            match skip_ws r with
            | d :: r' => if d =? 125 then Some (VObject [], r')
                         else parse_members fuel [] (skip_ws r)
            | [] => None
            end
          else if c =? 91 then
            match skip_ws r with
            | d :: r' => if d =? 93 then Some (VArray [], r')
                         else parse_elements fuel [] r
            | [] => None
            end
          else if c =? 34 then
            '(t, rest) ← string_body r; Some (VString t, rest)
          else if startsWith (js "true") (c :: r) then Some (VBool true, drop 4 (c :: r))
          else if startsWith (js "false") (c :: r) then Some (VBool false, drop 5 (c :: r))
          else if startsWith (js "null") (c :: r) then Some (VNull, drop 4 (c :: r))
          else '(t, rest) ← number (c :: r); Some (VNumber t, rest)
      end
  end
with parse_elements (fuel : nat) (acc : list value) (s : jsstring)
  : option (value * jsstring) :=
  match fuel with
  | O => None
  | S fuel =>
      '(v, rest) ← parse_value fuel s;
      match skip_ws rest with
      | c :: r =>
          if c =? 44 then parse_elements fuel (acc ++ [v]) r
          else if c =? 93 then Some (VArray (acc ++ [v]), r)
          else None
      | [] => None
      end
  end
with parse_members (fuel : nat) (acc : list (jsstring * value)) (s : jsstring)
  : option (value * jsstring) :=
  match fuel with
  | O => None
  | S fuel =>
      match s with
      | q :: r =>
          if q =? 34 then
            '(k, r1) ← string_body r;
            match skip_ws r1 with
            | c :: r2 =>
                if c =? 58 then
                  '(v, rest) ← parse_value fuel r2;
                  match skip_ws rest with
                  | d :: r3 =>
                      if d =? 44 then parse_members fuel (acc ++ [(k, v)]) (skip_ws r3)
                      else if d =? 125 then Some (VObject (acc ++ [(k, v)]), r3)
                      else None
                  | [] => None
                  end
                else None
            | [] => None
            end
          else None
      | [] => None
      end
  end.

Definition parse (text : jsstring) : option value :=
  '(v, rest) ← parse_value (2 * length text + 2) text;
  if truthy (skip_ws rest) then None else Some v.

End Json.

(** A string conversion for running the handler: exact on [undefined],
    [null], booleans, strings, arrays and objects of these (an object
    that has a member named [toString] has no callable conversion left: a
    TypeError).  A number is written as its token.  That is what
    JavaScript prints when the token is an integer of up to fifteen
    digits with no fraction and no exponent, [-0] apart; for other tokens
    JavaScript prints the shortest decimal of the double ([0] for [-0],
    [1.5] for [1.50], [100] for [1e2]), which this conversion does not
    compute.  No example below holds such a number. *)
Fixpoint ToString_ref (v : value) : option jsstring :=
  match v with
  | VUndefined => Some (js "undefined")
  | VNull => Some (js "null")
  | VBool true => Some (js "true")
  | VBool false => Some (js "false")
  | VNumber t => Some t
  | VString s => Some s
  | VArray items =>
      (fix join (l : list value) : option jsstring :=
         match l with
         | [] => Some []
         | x :: r =>
             s ← match x with
                 | VUndefined | VNull => Some []
                 | _ => ToString_ref x
                 end;
             t ← join r;
             Some (match r with [] => s | _ => s ++ 44 :: t end)
         end) items
  | VObject ms =>
      match own_property (js "toString") ms with
      | Some _ => None
      | None => Some (js "[object Object]")
      end
  end.

#[export] Instance reference_host : Host :=
  {| JSON_parse := Json.parse; ToString := ToString_ref |}.

(** ** The handler on concrete streams

    The component with the reference parser: a question typed into the
    input, and the state when the response has arrived and the read loop
    waits for its first chunk.  The in-progress object is at location 1. *)

Definition typed : state :=
  setInput (js "hi") (initial (js "default") (js "k3x9q2m1a")).

Definition streaming : state :=
  on_response (handleSubmit typed).

Definition placeholder : message :=
  {| role := assistant; content := []; sources := VArray [] |}.

Definition question : message :=
  {| role := user; content := js "hi"; sources := VUndefined |}.

Definition line_Hel : jsstring := jsq "data: {'type':'token','content':'Hel'}".
Definition line_lo : jsstring := jsq "data: {'type':'token','content':'lo'}".
Definition line_A : jsstring := jsq "data: {'type':'token','content':'A'}".
Definition line_B : jsstring := jsq "data: {'type':'token','content':'B'}".
Definition line_garbage : jsstring := jsq "data: not-json".
Definition line_sources_ab : jsstring :=
  jsq "data: {'type':'sources','sources':[{'source':'a'},{'source':'b'}]}".
Definition line_sources_c : jsstring :=
  jsq "data: {'type':'sources','sources':[{'source':'c'}]}".
Definition line_error : jsstring := jsq "data: {'type':'error','error':'boom'}".

Definition source (name : string) : value := VObject [(js "source", VString (js name))].

(** ** The store, the session and the form

    What the properties of the second part speak of: the store as the
    spec's conversation store, the requests of a session, and the form
    [ChatInterface] renders. *)

Section MoreDefs.
Context {host : Host}.

(** [st'] has the messages of [st], but for the last one. *)
Definition same_but_last (st st' : state) : Prop :=
  length (messages st') = length (messages st)
  /\ forall i, (S i < length (messages st))%nat -> snapshot st' !! i = snapshot st !! i.

Definition user_content (o : option message) : option jsstring :=
  match o with
  | Some m => match role m with user => Some (content m) | assistant => None end
  | None => None
  end.

(** The contents of the user messages of the store, oldest first. *)
Definition user_contents (st : state) : list jsstring :=
  omap user_content (snapshot st).

(** The last element of the store is an assistant message, and so is the
    in-progress object. *)
Definition answering (am : nat) (st : state) : Prop :=
  role <$> heap st !! am = Some assistant
  /\ exists pre m, snapshot st = pre ++ [Some m] /\ role m = assistant.

(** What holds of every state of a session with conversation id [id]. *)
Definition session_ok (id : jsstring) (st : state) : Prop :=
  state_ok st
  /\ conversationId st = id
  /\ Forall (fun r => use_rag r = true /\ conversation_id r = id
                     /\ truthy (trim (query r)) = true) (fetched st)
  /\ query <$> fetched st = user_contents st
  /\ forall am, running st = Some (AwaitRead am) -> answering am st.

(** *** The form of [ChatInterface], lines 86 to 98 *)

Record form_view := {
  input_value : jsstring;
  input_disabled : bool;
  button_disabled : bool;
  button_label : jsstring
}.

Definition render_form (st : state) : form_view :=
  {| input_value := input st;
     input_disabled := loading st;
     button_disabled := loading st || negb (truthy (trim (input st)));
     button_label := if loading st then js "..." else js "Send" |}.

Definition whitespace_only (s : jsstring) : Prop :=
  Forall (fun c => is_js_whitespace c = true) s.

(** The message of the [catch] block. *)
Definition error_message (msg : jsstring) : message :=
  {| role := assistant; content := js "Error: " ++ msg; sources := VUndefined |}.

(** What a query adds to the list read through the store, by the way the
    network answers. *)
Definition added_by (o : outcome) (k : list (option message)) : Prop :=
  match o with
  | NoConnection msg | NoBody msg => k = [Some (error_message msg)]
  | StreamEnds _ => exists m, k = [Some m] /\ role m = assistant
  | StreamFails _ msg =>
      exists m, k = [Some m; Some (error_message msg)] /\ role m = assistant
  end.

(** A chunk that holds whole lines of text: scalar values, no byte order
    mark at its start, a newline at its end. *)
Definition whole_lines (t : list Z) : Prop :=
  Forall is_scalar t /\ head t <> Some 0xFEFF /\ last t = Some 10.

(** [pieces.join(sep)] for a separator of one code unit. *)
Fixpoint join (sep : Z) (pieces : list jsstring) : jsstring :=
  match pieces with
  | [] => []
  | [l] => l
  | l :: ls => l ++ sep :: join sep ls
  end.

(** The number of newlines of a string, or of newline bytes of a chunk. *)
Definition newlines (l : list Z) : nat := length (filter (fun c => c = 10) l).

(** What holds of the decoder's state while a sequence is open: the
    bytes still to come are continuation bytes, and the code point will
    not come out below 64. *)
Definition utf8_open (s : utf8_state) : Prop :=
  0x80 <= lower_boundary s /\ upper_boundary s <= 0xBF
  /\ 0 <= code_point s /\ 0 <= bytes_seen s < bytes_needed s
  /\ (1 <= code_point s
      \/ (0x80 < lower_boundary s /\ bytes_seen s + 1 < bytes_needed s)).

(** A request has been made once the store holds a message, and whenever
    a call is suspended. *)
Definition asked (st : state) : Prop :=
  (fetched st = [] <-> messages st = [])
  /\ (is_Some (running st) -> fetched st <> []).

End MoreDefs.

(** ** More of the engine

    Whether a number token denotes zero (as a double: [0], [-0], and what
    underflows to them), the comparison [v > 0] for a value [v] ([None]
    is the TypeError of a [v] that cannot be converted to a number), and
    the message of the TypeError the engine raises when a property of [v]
    cannot be read or [v] cannot be converted to a string. *)

Class Engine := {
  is_zero : jsstring -> bool;
  positive : value -> option bool;
  TypeError_message : value -> jsstring
}.

(** ** [MessageList] *)

(** Whether React takes [v] as a child.  A string or a number is rendered
    as text, a boolean, [null] and [undefined] as nothing, an array as its
    items one after the other; an object that is no element is refused
    with an error ("Objects are not valid as a React child"), and a value
    that [JSON.parse] returns is never an element. *)
Fixpoint valid_child (v : value) : bool :=
  match v with
  | VObject _ => false
  | VArray items => forallb valid_child items
  | _ => true
  end.

Section Rendering.
Context {engine : Engine}.

(** [v] as a condition. *)
Definition ToBoolean (v : value) : bool :=
  match v with
  | VUndefined | VNull => false
  | VBool b => b
  | VNumber t => negb (is_zero t)
  | VString s => truthy s
  | VArray _ | VObject _ => true
  end.

(** [v.length > 0] for a [v] that is neither [null] nor [undefined]. *)
Definition length_positive (v : value) : option bool :=
  match v with
  | VString s => Some (truthy s)
  | VArray items => Some (match items with [] => false | _ :: _ => true end)
  | VObject ms => positive (default VUndefined (own_property (js "length") ms))
  | _ => Some false
  end.

(** The child [message.sources && message.sources.length > 0 && (...)]:
    the falsy operand the chain stops at, or the block with, for each
    item, the child [source.source]. *)
Inductive sources_child :=
| NotShown (v : value)
| SourcesBlock (items : list value).

(** [None] is an error thrown in the render: a [length] that cannot be
    compared, [map] called on what is no array, [source.source] read from
    [null], or a [source.source] that React does not take as a child. *)
Definition render_sources (v : value) : option sources_child :=
  if negb (ToBoolean v) then Some (NotShown v)
  else
    p ← length_positive v;
    if negb p then Some (NotShown (VBool false))
    else match v with
         | VArray items =>
             names ← mapM (fun source => get source (js "source")) items;
             if forallb valid_child names then Some (SourcesBlock names) else None
         | _ => None
         end.

Definition role_name (r : role_t) : jsstring :=
  match r with user => js "user" | assistant => js "assistant" end.

(** One message: the class of its [div], the text given to
    [ReactMarkdown], and the sources child. *)
Record message_view := {
  class_name : jsstring;
  markdown : jsstring;
  sources_shown : sources_child
}.

Definition render_message (m : message) : option message_view :=
  child ← render_sources (sources m);
  Some {| class_name := js "message message-" ++ role_name (role m);
          markdown := content m;
          sources_shown := child |}.

Record list_view := {
  welcome : bool;
  shown : list message_view
}.

(** Lines 190 to 233 of [App.jsx]'s listing: what is rendered for the
    array [messages]; [None] when an error is thrown on the way. *)
Definition MessageList (messages : list message) : option list_view :=
  views ← mapM render_message messages;
  Some {| welcome := match messages with [] => true | _ :: _ => false end;
          shown := views |}.

(** The objects of the store, as [ChatInterface] hands them to
    [MessageList]. *)
Definition store_messages (st : state) : list message :=
  omap id (snapshot st).

Record chat_view := {
  message_list : list_view;
  form : form_view
}.

(** Lines 82 to 100 of [ChatInterface.jsx]. *)
Definition ChatInterface (st : state) : option chat_view :=
  list ← MessageList (store_messages st);
  Some {| message_list := list; form := render_form st |}.

End Rendering.

(** ** The sidebar: [App], [DocumentList] and [DocumentUpload]

    The state cells of the three components, and the requests in flight:
    the URLs of the GETs of [fetchDocuments] and of the POSTs of
    [handleFileUpload], oldest first. *)

Record sidebar := {
  sb_collection : jsstring;
  documents : value;
  refreshTrigger : Z;
  docs : value;
  dl_loading : bool;
  uploading : bool;
  upload_message : jsstring;
  gets : list jsstring;
  posts : list jsstring
}.

(** How a request ends: [fetch] or [response.json()] rejects with an
    error whose message is [msg], or the body parses to [data]. *)
Inductive reply :=
| Rejected (msg : jsstring)
| Answered (data : value).

Inductive sidebar_event :=
| SetCollection (c : jsstring)
| ChooseFile (file : bool)
| GetSettled (i : nat) (r : reply)
| PostSettled (i : nat) (r : reply).

Definition documents_url (c : jsstring) : jsstring :=
  js "http://localhost:8000/documents/" ++ c.

Definition upload_url (c : jsstring) : jsstring :=
  js "http://localhost:8000/upload?collection=" ++ c.

Definition CHECK : jsstring := [0x2713].
Definition CROSS : jsstring := [0x2717].

(** [prev + 1] on a number that is a natural: exact below 2^53, where the
    sum rounds back to 2^53. *)
Definition plus_one (n : Z) : Z := if n <? 2 ^ 53 then n + 1 else n.

Section Sidebar.
Context {host : Host} {engine : Engine}.

(** [fetchDocuments] up to [await fetch], lines 64 to 67 of [App.jsx],
    as the effect of [DocumentList] calls it after a render in which
    [collection] or [refreshTrigger] has changed. *)
Definition fetchDocuments (sb : sidebar) : sidebar :=
  {| sb_collection := sb_collection sb; documents := documents sb;
     refreshTrigger := refreshTrigger sb; docs := docs sb;
     dl_loading := true;
     uploading := uploading sb; upload_message := upload_message sb;
     gets := gets sb ++ [documents_url (sb_collection sb)]; posts := posts sb |}.

(** The rest of [fetchDocuments], lines 68 to 74.  [data.documents] is
    read with [get]: like the names the handler reads, [documents],
    [success], [filename], [chunks] and [source] are defined by no
    prototype. *)
Definition documents_settled (r : reply) (sb : sidebar) : sidebar :=
  let received :=
    match r with
    | Rejected _ => None
    | Answered data =>
        d ← get data (js "documents");
        Some (if ToBoolean d then d else VArray [])
    end in
  {| sb_collection := sb_collection sb;
     documents := default (documents sb) received;
     refreshTrigger := refreshTrigger sb;
     docs := default (docs sb) received;
     dl_loading := false;
     uploading := uploading sb; upload_message := upload_message sb;
     gets := gets sb; posts := posts sb |}.

(** [setCollection(e.target.value)], line 24: a new value is a new prop
    of [DocumentList], whose effect runs again. *)
Definition setCollection (c : jsstring) (sb : sidebar) : sidebar :=
  if bool_decide (c = sb_collection sb) then sb
  else fetchDocuments
         {| sb_collection := c; documents := documents sb;
            refreshTrigger := refreshTrigger sb; docs := docs sb;
            dl_loading := dl_loading sb;
            uploading := uploading sb; upload_message := upload_message sb;
            gets := gets sb; posts := posts sb |}.

(** [handleUploadSuccess], lines 10 to 12, and the effect that follows
    when the counter has changed. *)
Definition handleUploadSuccess (sb : sidebar) : sidebar :=
  let n := plus_one (refreshTrigger sb) in
  if n =? refreshTrigger sb then sb
  else fetchDocuments
         {| sb_collection := sb_collection sb; documents := documents sb;
            refreshTrigger := n; docs := docs sb;
            dl_loading := dl_loading sb;
            uploading := uploading sb; upload_message := upload_message sb;
            gets := gets sb; posts := posts sb |}.

Definition set_upload (u : bool) (m : jsstring) (sb : sidebar) : sidebar :=
  {| sb_collection := sb_collection sb; documents := documents sb;
     refreshTrigger := refreshTrigger sb; docs := docs sb;
     dl_loading := dl_loading sb;
     uploading := u; upload_message := m;
     gets := gets sb; posts := posts sb |}.

(** [handleFileUpload] up to [await fetch], lines 128 to 145. *)
Definition handleFileUpload (file : bool) (sb : sidebar) : sidebar :=
  if negb file then sb
  else
    let sb := set_upload true [] sb in
    {| sb_collection := sb_collection sb; documents := documents sb;
       refreshTrigger := refreshTrigger sb; docs := docs sb;
       dl_loading := dl_loading sb;
       uploading := uploading sb; upload_message := upload_message sb;
       gets := gets sb; posts := posts sb ++ [upload_url (sb_collection sb)] |}.

(** What the [try] of lines 147 to 157 comes to for the parsed body: the
    message of the success branch, the message of the [else] branch, or the
    value on which a TypeError is raised. *)
Inductive upload_result :=
| Uploaded (text : jsstring)
| Refused (text : jsstring)
| Thrown (v : value).

Definition read_upload (data : value) : upload_result :=
  match get data (js "success") with
  | None => Thrown data
  | Some s =>
      if ToBoolean s then
        let filename := default VUndefined (get data (js "filename")) in
        let chunks := default VUndefined (get data (js "chunks")) in
        match to_str filename with
        | None => Thrown filename
        | Some f =>
            match to_str chunks with
            | None => Thrown chunks
            | Some c =>
                Uploaded (CHECK ++ js " Uploaded " ++ f ++ js " (" ++ c ++ js " chunks)")
            end
        end
      else
        let e := default VUndefined (get data (js "error")) in
        match to_str e with
        | None => Thrown e
        | Some text => Refused (CROSS ++ js " Error: " ++ text)
        end
  end.

(** The rest of [handleFileUpload], lines 147 to 159. *)
Definition upload_settled (r : reply) (sb : sidebar) : sidebar :=
  match r with
  | Rejected msg => set_upload false (CROSS ++ js " Upload failed: " ++ msg) sb
  | Answered data =>
      match read_upload data with
      | Uploaded text =>
          set_upload false text (handleUploadSuccess (set_upload (uploading sb) text sb))
      | Refused text => set_upload false text sb
      | Thrown v =>
          set_upload false (CROSS ++ js " Upload failed: " ++ TypeError_message v) sb
      end
  end.

Definition set_gets (g : list jsstring) (sb : sidebar) : sidebar :=
  {| sb_collection := sb_collection sb; documents := documents sb;
     refreshTrigger := refreshTrigger sb; docs := docs sb;
     dl_loading := dl_loading sb;
     uploading := uploading sb; upload_message := upload_message sb;
     gets := g; posts := posts sb |}.

Definition set_posts (p : list jsstring) (sb : sidebar) : sidebar :=
  {| sb_collection := sb_collection sb; documents := documents sb;
     refreshTrigger := refreshTrigger sb; docs := docs sb;
     dl_loading := dl_loading sb;
     uploading := uploading sb; upload_message := upload_message sb;
     gets := gets sb; posts := p |}.

(** One event of the sidebar. The request that settles is named by its
    place among those in flight; [None] is an event that cannot occur:
    no request at that place, or a file chosen while the file input is
    disabled (line 171). *)
Definition sidebar_step (sb : sidebar) (e : sidebar_event) : option sidebar :=
  match e with
  | SetCollection c => Some (setCollection c sb)
  | ChooseFile file =>
      if uploading sb then None else Some (handleFileUpload file sb)
  | GetSettled i r =>
      _ ← gets sb !! i;
      Some (documents_settled r (set_gets (delete i (gets sb)) sb))
  | PostSettled i r =>
      _ ← posts sb !! i;
      Some (upload_settled r (set_posts (delete i (posts sb)) sb))
  end.

Fixpoint sidebar_run (sb : sidebar) (es : list sidebar_event) : option sidebar :=
  match es with
  | [] => Some sb
  | e :: es' => sb' ← sidebar_step sb e; sidebar_run sb' es'
  end.

(** The sidebar when the components are mounted and the effect of
    [DocumentList] has run for the first time. *)
Definition sidebar_mounted : sidebar :=
  fetchDocuments
    {| sb_collection := js "default"; documents := VArray []; refreshTrigger := 0;
       docs := VArray []; dl_loading := false; uploading := false;
       upload_message := []; gets := []; posts := [] |}.

(** The class of the message block of [DocumentUpload], lines 175 to 179;
    [None] when the message is empty and the block is not rendered. *)
Definition upload_message_class (sb : sidebar) : option jsstring :=
  if truthy (upload_message sb) then
    Some (js "upload-message "
          ++ (if startsWith CHECK (upload_message sb) then js "success" else js "error"))
  else None.

(** What [DocumentList] renders, lines 77 to 91. *)
Inductive documents_view :=
| Loading
| NoDocuments
| Documents (items : list value).

(** [None] is an error thrown in the render: [length] read from [null]
    or [undefined], [map] called on what is no array, or an item that
    React does not take as a child. *)
Definition render_documents (sb : sidebar) : option documents_view :=
  if dl_loading sb then Some Loading
  else match docs sb with
       | VArray [] => Some NoDocuments
       | VArray items =>
           if forallb valid_child items then Some (Documents items) else None
       | VString [] => Some NoDocuments
       | VObject ms =>
           match own_property (js "length") ms with
           | Some (VNumber t) => if is_zero t then Some NoDocuments else None
           | _ => None
           end
       | _ => None
       end.

(** Whether the upload went through: the body says [success] and the
    message of the success branch could be built. *)
Definition succeeded (r : reply) : bool :=
  match r with
  | Rejected _ => false
  | Answered data =>
      match read_upload data with
      | Uploaded _ => true
      | _ => false
      end
  end.

(** What holds of every state the sidebar reaches. *)
Definition sidebar_ok (sb : sidebar) : Prop :=
  documents sb = docs sb
  /\ (dl_loading sb = true -> gets sb <> [])
  /\ (uploading sb = true <-> posts sb <> [])
  /\ (length (posts sb) <= 1)%nat
  /\ 0 <= refreshTrigger sb <= 2 ^ 53.

End Sidebar.

(** ** An engine for the examples

    A number token, and a string that is converted to a number, are read
    as [m * 10 ^ e] and rounded as [JSON.parse] and V8 round them: to
    zero exactly when [m] is zero or the value is at most [2 ^ -1075],
    half of the least positive double.  [v > 0] follows [ToNumber]: the
    grammar of numeric strings for a string, the string an array or an
    object is converted to for these.  The messages are those of V8. *)

Definition is_digit (c : Z) : bool := (48 <=? c) && (c <=? 57).

(** The digits at the start of [s]: their value after [acc], their number
    added to [n], and the text that follows them. *)
Fixpoint read_digits (s : jsstring) (acc n : Z) : Z * Z * jsstring :=
  match s with
  | c :: r =>
      if is_digit c then read_digits r (10 * acc + (c - 48)) (n + 1) else (acc, n, s)
  | [] => (acc, n, [])
  end.

(** An exponent part, or nothing, up to the end of the text. *)
Definition exponent (s : jsstring) : option Z :=
  match s with
  | [] => Some 0
  | c :: r =>
      if (c =? 101) || (c =? 69) then
        let '(neg, r) :=
          match r with
          | 45 :: r' => (true, r')
          | 43 :: r' => (false, r')
          | _ => (false, r)
          end in
        let '(e, n, rest) := read_digits r 0 0 in
        match rest with
        | [] => if 0 <? n then Some (if neg then - e else e) else None
        | _ :: _ => None
        end
      else None
  end.

(** An unsigned decimal literal as [(m, e)], for [m * 10 ^ e]: digits, a
    point, digits, an exponent, with digits on one side of the point at
    least. *)
Definition decimal (s : jsstring) : option (Z * Z) :=
  let '(i, ni, r) := read_digits s 0 0 in
  let '(m, nf, r) :=
    match r with
    | 46 :: r' => read_digits r' i 0
    | _ => (i, 0, r)
    end in
  if (0 <? ni) || (0 <? nf) then e ← exponent r; Some (m, e - nf) else None.

Definition rounds_to_zero (m e : Z) : bool :=
  (m =? 0) || ((e <? 0) && (m * 2 ^ 1075 <=? 10 ^ (- e))).

Definition unsigned (t : jsstring) : jsstring :=
  match t with
  | 45 :: r => r
  | _ => t
  end.

Definition is_zero_ref (t : jsstring) : bool :=
  match decimal (unsigned t) with
  | Some (m, e) => rounds_to_zero m e
  | None => false
  end.

(** [0x], [0o] and [0b] literals: whether [s] is one that is not zero. *)
Definition non_decimal_positive (s : jsstring) : bool :=
  match s with
  | 48 :: x :: d :: ds =>
      let digit (c : Z) : bool :=
        if (x =? 120) || (x =? 88) then
          is_digit c || ((97 <=? c) && (c <=? 102)) || ((65 <=? c) && (c <=? 70))
        else if (x =? 111) || (x =? 79) then (48 <=? c) && (c <=? 55)
        else if (x =? 98) || (x =? 66) then (c =? 48) || (c =? 49)
        else false in
      forallb digit (d :: ds) && negb (forallb (fun c => c =? 48) (d :: ds))
  | _ => false
  end.

(** [s > 0] for a string [s]. *)
Definition positive_string (s : jsstring) : bool :=
  let s := trim s in
  let u := match s with 43 :: r => r | _ => s end in
  if str_eqb u (js "Infinity") then true
  else match decimal u with
       | Some (m, e) => negb (rounds_to_zero m e)
       | None => non_decimal_positive s
       end.

Definition positive_ref (v : value) : option bool :=
  match v with
  | VUndefined | VNull => Some false
  | VBool b => Some b
  | VNumber t => Some (negb (is_zero_ref t) && negb (startsWith (js "-") t))
  | VString s => Some (positive_string s)
  | VArray _ | VObject _ => s ← ToString_ref v; Some (positive_string s)
  end.

Definition TypeError_message_ref (v : value) : jsstring :=
  match v with
  | VNull => js "Cannot read properties of null (reading 'success')"
  | VUndefined => js "Cannot read properties of undefined (reading 'success')"
  | _ => js "Cannot convert object to primitive value"
  end.

#[export] Instance reference_engine : Engine :=
  {| is_zero := is_zero_ref; positive := positive_ref;
     TypeError_message := TypeError_message_ref |}.

(** A sources record whose [sources] is a string. *)
Definition line_sources_text : jsstring :=
  jsq "data: {'type':'sources','sources':'abc'}".

(** The sidebar after a file has been chosen, and two bodies the server
    may answer with. *)
Definition file_chosen : sidebar := handleFileUpload true sidebar_mounted.

Definition upload_accepted : value :=
  VObject [(js "success", VBool true); (js "filename", VString (js "a.txt"));
           (js "chunks", VNumber (js "3"))].

Definition documents_of_a : value :=
  VObject [(js "documents", VArray [VString (js "a.txt")])].

(** * Properties *)

Section Properties.

Context {host : Host}.

(** ** The line loop *)

Lemma str_eqb_refl (s : jsstring) : str_eqb s s = true.
Proof. induction s as [|a s IH]; simpl; [done|]. by rewrite Z.eqb_refl. Qed.

Lemma str_eqb_eq (s t : jsstring) : str_eqb s t = true -> s = t.
Proof.
  revert t; induction s as [|a s IH]; intros [|b t]; simpl; try done.
  intros [Hab Hst]%andb_prop. apply Z.eqb_eq in Hab. f_equal; auto.
Qed.

Lemma mutate_lookup am f st m :
  heap st !! am = Some m -> heap (mutate am f st) !! am = Some (f m).
Proof. intros H. simpl. by rewrite list_lookup_alter_eq, H. Qed.


Lemma mutate_messages am f st : messages (mutate am f st) = messages st.
Proof. done. Qed.

Lemma publish_eq am st m :
  heap st !! am = Some m ->
  publish am st =
  setMessages (replaceLast (length (heap st))) (set_heap (heap st ++ [m]) st).
Proof. intros H. unfold publish. by rewrite H. Qed.

Lemma publish_lookup am st l m :
  heap st !! l = Some m -> heap (publish am st) !! l = Some m.
Proof.
  intros H. unfold publish. destruct (heap st !! am) as [m'|] eqn:E; [|done].
  simpl. rewrite lookup_app_l; [done|]. by eapply lookup_lt_Some.
Qed.

(** After a publication the last element of the store is a copy of the
    in-progress object. *)
Lemma publish_last am st m :
  heap st !! am = Some m -> messages st <> [] ->
  last (snapshot (publish am st)) = Some (Some m).
Proof.
  intros H Hne. rewrite (publish_eq _ _ _ H). unfold snapshot, replaceLast. simpl.
  rewrite fmap_last, last_lookup, length_insert.
  replace (pred (length (messages st))) with (length (messages st) - 1)%nat by lia.
  rewrite list_lookup_insert_eq by (destruct (messages st); simpl in *; [done|lia]).
  simpl. by rewrite lookup_app_r, Nat.sub_diag by lia.
Qed.

Lemma is_string_refl (s : jsstring) : is_string (VString s) s = true.
Proof. apply str_eqb_refl. Qed.

Lemma process_data_token am st data c :
  is_token data c ->
  process_data am data st =
  Some (publish am (mutate am (fun m => set_content (content m ++ c) m) st)).
Proof.
  intros [Hty Hc]. unfold process_data. rewrite Hty. cbn [mbind option_bind].
  rewrite is_string_refl, Hc. done.
Qed.

Lemma process_data_sources am st data items :
  is_sources data items ->
  process_data am data st = Some (mutate am (set_sources items) st).
Proof.
  intros [Hty Hc]. unfold process_data. rewrite Hty. cbn [mbind option_bind].
  replace (is_string (VString (js "sources")) (js "token")) with false by done.
  rewrite is_string_refl, Hc. done.
Qed.

Lemma process_data_error am st data text :
  is_error data text ->
  process_data am data st =
  Some (publish am (mutate am (set_content (js "Error: " ++ text)) st)).
Proof.
  intros [Hty Hc]. unfold process_data. rewrite Hty. cbn [mbind option_bind].
  replace (is_string (VString (js "error")) (js "token")) with false by done.
  replace (is_string (VString (js "error")) (js "sources")) with false by done.
  rewrite is_string_refl, Hc. done.
Qed.

Lemma process_data_unknown am st data :
  unknown_type data -> default st (process_data am data st) = st.
Proof.
  unfold unknown_type, process_data. destruct (get data (js "type")) as [ty|]; [|done].
  intros (H1 & H2 & H3). cbn [mbind option_bind]. by rewrite H1, H2, H3.
Qed.

Lemma process_line_record am st line data :
  record_line line data ->
  process_line am st line = default st (process_data am data st).
Proof. intros [Hp Hj]. unfold process_line. by rewrite Hp, Hj. Qed.

Lemma process_line_malformed am st line :
  malformed_line line -> process_line am st line = st.
Proof.
  unfold process_line. intros [H|[H|(data & H & Hu)]].
  - by rewrite H.
  - rewrite H. by destruct (startsWith _ _).
  - rewrite H. destruct (startsWith _ _); [|done]. by apply process_data_unknown.
Qed.

Lemma process_line_token am st line c m :
  token_line line c -> heap st !! am = Some m ->
  heap (process_line am st line) !! am = Some (set_content (content m ++ c) m).
Proof.
  intros (data & Hl & Ht) Hm.
  rewrite (process_line_record _ _ _ _ Hl), (process_data_token _ _ _ _ Ht). simpl.
  apply publish_lookup. by apply (mutate_lookup am (fun m => set_content (content m ++ c) m)).
Qed.

Lemma same_frame_refl st : same_frame st st.
Proof. by repeat split. Qed.

Lemma same_frame_trans st1 st2 st3 :
  same_frame st1 st2 -> same_frame st2 st3 -> same_frame st1 st3.
Proof.
  intros (a1 & a2 & a3 & a4 & a5 & a6 & a7) (b1 & b2 & b3 & b4 & b5 & b6 & b7).
  repeat split; congruence.
Qed.

Lemma mutate_frame am f st : same_frame st (mutate am f st).
Proof. by repeat split. Qed.

Lemma publish_frame am st : same_frame st (publish am st).
Proof.
  unfold publish. destruct (heap st !! am); [|apply same_frame_refl].
  repeat split. simpl. unfold replaceLast. by rewrite length_insert.
Qed.

Lemma process_data_frame am data st st' :
  process_data am data st = Some st' -> same_frame st st'.
Proof.
  unfold process_data. intros H.
  destruct (get data (js "type")) as [ty|]; [|done]. cbn [mbind option_bind] in H.
  repeat case_match; simplify_eq;
    repeat match goal with
    | H : _ ≫= _ = Some _ |- _ => apply bind_Some in H; destruct H as (? & ? & H)
    end; simplify_eq;
    eauto using same_frame_refl, same_frame_trans, mutate_frame, publish_frame.
Qed.

Lemma process_line_frame am st line : same_frame st (process_line am st line).
Proof.
  unfold process_line. repeat case_match; try apply same_frame_refl.
  destruct (process_data am _ st) as [st'|] eqn:E; simpl;
    eauto using same_frame_refl, process_data_frame.
Qed.

Lemma process_lines_frame am lines st : same_frame st (process_lines am st lines).
Proof.
  revert st. induction lines as [|l ls IH]; intros st; [apply same_frame_refl|].
  eapply same_frame_trans; [apply (process_line_frame am st l)|apply IH].
Qed.

Lemma process_chunk_frame am st value : same_frame st (process_chunk am st value).
Proof. apply process_lines_frame. Qed.

Lemma same_frame_nonempty st st' :
  same_frame st st' -> messages st <> [] -> messages st' <> [].
Proof.
  intros (_ & _ & _ & _ & _ & _ & H) Hne E. rewrite E in H.
  destruct (messages st); simpl in *; [done|lia].
Qed.

Lemma set_content_set_content c c' m :
  set_content c (set_content c' m) = set_content c m.
Proof. done. Qed.

Lemma set_content_same m : set_content (content m) m = m.
Proof. by destruct m. Qed.

(** A token line appends to the in-progress object and publishes a copy of
    it as the last element of the store. *)
Lemma process_line_token_last am st line c m :
  token_line line c -> heap st !! am = Some m -> messages st <> [] ->
  last (snapshot (process_line am st line)) = Some (Some (set_content (content m ++ c) m)).
Proof.
  intros (data & Hl & Ht) Hm Hne.
  rewrite (process_line_record _ _ _ _ Hl), (process_data_token _ _ _ _ Ht). simpl.
  apply publish_last; [|done].
  by apply (mutate_lookup am (fun m => set_content (content m ++ c) m)).
Qed.

Lemma tokens_append am lines cs :
  Forall2 token_line lines cs ->
  forall st m, heap st !! am = Some m ->
  heap (process_lines am st lines) !! am = Some (set_content (content m ++ concat cs) m).
Proof.
  induction 1 as [|l c ls cs Hl _ IH]; intros st m Hm; simpl.
  - by rewrite app_nil_r, set_content_same.
  - rewrite (IH _ _ (process_line_token _ _ _ _ _ Hl Hm)). simpl.
    by rewrite app_assoc.
Qed.

(** C1. For every finite sequence of token records with contents
    [c1 ... cn], processed in arrival order while the in-progress assistant
    message has the empty content, the content of that message at the end
    is the concatenation [c1 ++ ... ++ cn] in arrival order; the copy held
    as last element of the store shows the same content. *)
Theorem C1_tokens_concatenate am st m lines cs :
  heap st !! am = Some m -> content m = [] -> Forall2 token_line lines cs ->
  heap (process_lines am st lines) !! am
  = Some {| role := role m; content := concat cs; sources := sources m |}
  /\ (messages st <> [] -> cs <> [] ->
      last (snapshot (process_lines am st lines))
      = Some (Some {| role := role m; content := concat cs; sources := sources m |})).
Proof.
  intros Hm He Hall.
  change {| role := role m; content := concat cs; sources := sources m |}
    with (set_content (concat cs) m).
  split.
  - rewrite (tokens_append _ _ _ Hall _ _ Hm). by rewrite He.
  - intros Hne Hcs.
    destruct lines as [|l0 ls0 _] using rev_ind.
    { apply Forall2_nil_inv_l in Hall. done. }
    apply Forall2_app_inv_l in Hall as (cs1 & cs2 & H1 & H2 & ->).
    apply Forall2_cons_inv_l in H2 as (c & cs3 & Hl & H3 & ->).
    apply Forall2_nil_inv_l in H3 as ->.
    unfold process_lines. rewrite foldl_app. simpl.
    pose proof (tokens_append _ _ _ H1 _ _ Hm) as Hm1. rewrite He in Hm1. simpl in Hm1.
    erewrite process_line_token_last; [| done | apply Hm1 |].
    + rewrite set_content_set_content, concat_app. simpl. by rewrite app_nil_r.
    + eapply same_frame_nonempty; [apply process_lines_frame | done].
Qed.

Lemma process_line_sources am st line items :
  sources_line line items ->
  process_line am st line = mutate am (set_sources items) st.
Proof.
  intros (data & Hl & Hs).
  by rewrite (process_line_record _ _ _ _ Hl), (process_data_sources _ _ _ _ Hs).
Qed.

(** C5. A sources record sets the [sources] of the in-progress message to
    exactly the record's items and leaves its content (and role) as they
    were; the list of a second sources record replaces the list of the
    first. *)
Theorem C5_sources_replace am st m l1 l2 items1 items2 :
  heap st !! am = Some m -> sources_line l1 items1 -> sources_line l2 items2 ->
  heap (process_line am st l1) !! am
    = Some {| role := role m; content := content m; sources := items1 |}
  /\ heap (process_lines am st [l1; l2]) !! am
    = Some {| role := role m; content := content m; sources := items2 |}.
Proof.
  intros Hm H1 H2.
  assert (heap (process_line am st l1) !! am = Some (set_sources items1 m)) as Hm1.
  { rewrite (process_line_sources _ _ _ _ H1). by apply mutate_lookup. }
  split; [done|]. simpl.
  rewrite (process_line_sources _ _ _ _ H2).
  by rewrite (mutate_lookup _ _ _ _ Hm1).
Qed.

(** C6. A malformed line (no prefix, a payload that does not parse, or a
    type that is not recognised) changes nothing, and between two token
    lines it does not interrupt the accumulation: token [a], garbage,
    token [b] appends [a ++ b]. *)
Theorem C6_malformed_line_skipped am st m la g lb a b :
  heap st !! am = Some m ->
  token_line la a -> malformed_line g -> token_line lb b ->
  (forall st', process_line am st' g = st')
  /\ heap (process_lines am st [la; g; lb]) !! am
     = Some {| role := role m; content := content m ++ a ++ b; sources := sources m |}.
Proof.
  intros Hm Ha Hg Hb. split; [intros; by apply process_line_malformed|].
  change {| role := role m; content := content m ++ a ++ b; sources := sources m |}
    with (set_content (content m ++ a ++ b) m).
  simpl. rewrite (process_line_malformed _ _ _ Hg).
  rewrite (process_line_token _ _ _ _ _ Hb (process_line_token _ _ _ _ _ Ha Hm)).
  simpl. by rewrite app_assoc.
Qed.

(** C8. An error record replaces the content of the in-progress message:
    the content becomes ["Error: "] followed by the record's text, whatever
    it was before, and this is the content the store then shows. *)
Theorem C8_error_replaces_content am st m line text :
  heap st !! am = Some m -> error_line line text ->
  heap (process_line am st line) !! am
  = Some {| role := role m; content := js "Error: " ++ text; sources := sources m |}
  /\ (messages st <> [] ->
      last (snapshot (process_line am st line))
      = Some (Some {| role := role m; content := js "Error: " ++ text;
                      sources := sources m |})).
Proof.
  intros Hm (data & Hl & He).
  change {| role := role m; content := js "Error: " ++ text; sources := sources m |}
    with (set_content (js "Error: " ++ text) m).
  rewrite (process_line_record _ _ _ _ Hl), (process_data_error _ _ _ _ He). simpl.
  pose proof (mutate_lookup am (set_content (js "Error: " ++ text)) _ _ Hm) as Hm'.
  split; [by apply publish_lookup|]. intros Hne. by apply publish_last.
Qed.

Lemma startsWith_app (p s : jsstring) : startsWith p (p ++ s) = true.
Proof. induction p as [|a p IH]; simpl; [done|]. by rewrite Z.eqb_refl. Qed.

(** C9, as the code has it. A line is read as a record only when the
    prefix stands at its very start; the payload is then the line without
    its first six code units. A line that does not start with the prefix
    is skipped, whatever it holds further in: nothing before an occurrence
    of the prefix is ignored. *)
Theorem C9_prefix_at_line_start am st :
  (forall payload,
     process_line am st (js "data: " ++ payload)
     = match JSON_parse payload with
       | Some data => default st (process_data am data st)
       | None => st
       end)
  /\ (forall line, startsWith (js "data: ") line = false -> process_line am st line = st)
  /\ (forall c before payload,
      c <> 100 -> process_line am st (c :: before ++ js "data: " ++ payload) = st).
Proof.
  split_and!.
  - intros payload. unfold process_line. by rewrite startsWith_app.
  - intros line H. unfold process_line. by rewrite H.
  - intros c before payload Hc. unfold process_line.
    replace (startsWith (js "data: ") (c :: before ++ js "data: " ++ payload))
      with false; [done|].
    symmetry. change (js "data: ") with (100 :: js "ata: "). cbn [startsWith].
    by rewrite (proj2 (Z.eqb_neq 100 c)) by done.
Qed.

Lemma split_nonempty sep (s : jsstring) : split sep s <> [].
Proof. destruct s as [|c r]; simpl; [done|]. by repeat case_match. Qed.

Lemma split_app_sep sep (h t : jsstring) :
  split sep (h ++ sep :: t) = split sep h ++ split sep t.
Proof.
  induction h as [|c h IH]; simpl.
  - by rewrite Z.eqb_refl.
  - rewrite IH. destruct (c =? sep); [done|].
    pose proof (split_nonempty sep h). by destruct (split sep h).
Qed.

Lemma split_no_sep sep (t : jsstring) : sep ∉ t -> split sep t = [t].
Proof.
  induction t as [|c t IH]; [done|]. intros Hn. simpl.
  apply not_elem_of_cons in Hn as [Hc Ht].
  destruct (Z.eqb_spec c sep); [congruence|]. by rewrite (IH Ht).
Qed.

(** C2, as the code has it. There is no pending buffer: the text after the
    last newline of a chunk is processed as a line in the same turn of the
    read loop, right after the lines before it, and nothing of it is kept
    for the next chunk. *)
Theorem C2_tail_processed_at_once am st value tail :
  10 ∉ tail ->
  (TextDecoder_decode value = tail ->
   process_chunk am st value = process_line am st tail)
  /\ (forall head,
      TextDecoder_decode value = head ++ 10 :: tail ->
      process_chunk am st value
      = process_line am (process_lines am st (split 10 head)) tail).
Proof.
  intros Hn. unfold process_chunk, process_text, process_lines. split.
  - intros ->. by rewrite (split_no_sep _ _ Hn).
  - intros head ->. by rewrite split_app_sep, foldl_app, (split_no_sep _ _ Hn).
Qed.

(** ** Sharing between the store and the in-progress object *)

(** The three things a line can do. *)
Lemma process_data_cases am data st st' :
  process_data am data st = Some st' ->
  st' = st
  \/ (exists f, st' = mutate am f st)
  \/ (exists f, st' = publish am (mutate am f st)).
Proof.
  unfold process_data. intros H.
  destruct (get data (js "type")) as [ty|]; [|done]. cbn [mbind option_bind] in H.
  repeat case_match; simplify_eq;
    repeat match goal with
    | H : _ ≫= _ = Some _ |- _ => apply bind_Some in H; destruct H as (? & ? & H)
    end; simplify_eq; eauto.
Qed.

Lemma process_line_cases am st line :
  process_line am st line = st
  \/ (exists f, process_line am st line = mutate am f st)
  \/ (exists f, process_line am st line = publish am (mutate am f st)).
Proof.
  unfold process_line. destruct (startsWith _ line); [|by left].
  destruct (JSON_parse _) as [data|]; [|by left].
  destruct (process_data am data st) as [st'|] eqn:E; [|by left].
  simpl. by apply (process_data_cases am data).
Qed.

Lemma process_line_publishing am st line :
  publishing_line line ->
  exists f, process_line am st line = publish am (mutate am f st).
Proof.
  intros (data & payload & s & Hl & [[Hty Hp]|[Hty Hp]] & Hs);
    rewrite (process_line_record _ _ _ _ Hl); unfold process_data;
    rewrite Hty; cbn [mbind option_bind].
  - rewrite is_string_refl, Hp. cbn [mbind option_bind]. rewrite Hs. simpl. eauto.
  - replace (is_string (VString (js "error")) (js "token")) with false by done.
    replace (is_string (VString (js "error")) (js "sources")) with false by done.
    rewrite is_string_refl, Hp. cbn [mbind option_bind]. rewrite Hs. simpl. eauto.
Qed.


Lemma is_string_true v s : is_string v s = true -> v = VString s.
Proof.
  destruct v; simpl; try done. intros H. f_equal. by apply str_eqb_eq.
Qed.

(** Every line is of one of the two kinds. *)
Lemma quiet_or_publishing line : quiet_line line \/ publishing_line line.
Proof.
  destruct (startsWith (js "data: ") line) eqn:Hp; [|by left; left; left].
  destruct (JSON_parse (slice 6 line)) as [data|] eqn:Hj; [|by left; left; right; left].
  assert (record_line line data) as Hl by done.
  destruct (get data (js "type")) as [ty|] eqn:Hty.
  2: { left; left; right; right. exists data. split; [done|].
       unfold unknown_type. by rewrite Hty. }
  assert (forall k, exists payload, get data k = Some payload) as Hget.
  { intros k. destruct data; simpl in *; try done; eauto. }
  destruct (is_string ty (js "token")) eqn:E1.
  { apply is_string_true in E1 as ->. destruct (Hget (js "content")) as [payload Hc].
    destruct (to_str payload) as [s|] eqn:Hs.
    - right. exists data, payload, s. split_and!; [done| |done]. by left.
    - left; right; right. exists data, payload. split_and!; [done| |done]. by left. }
  destruct (is_string ty (js "sources")) eqn:E2.
  { apply is_string_true in E2 as ->. destruct (Hget (js "sources")) as [items Hi].
    left; right; left. by exists items, data. }
  destruct (is_string ty (js "error")) eqn:E3.
  { apply is_string_true in E3 as ->. destruct (Hget (js "error")) as [payload Hc].
    destruct (to_str payload) as [s|] eqn:Hs.
    - right. exists data, payload, s. split_and!; [done| |done]. by right.
    - left; right; right. exists data, payload. split_and!; [done| |done]. by right. }
  left; left; right; right. exists data. split; [done|].
  unfold unknown_type. by rewrite Hty.
Qed.

Lemma replaceLast_snoc (x y : nat) (pre : list nat) :
  replaceLast y (pre ++ [x]) = pre ++ [y].
Proof.
  unfold replaceLast. rewrite length_app. simpl.
  replace (length pre + 1 - 1)%nat with (length pre + 0)%nat by lia.
  by rewrite insert_app_r.
Qed.

Lemma mutate_heap_length am f st : length (heap (mutate am f st)) = length (heap st).
Proof. simpl. apply length_alter. Qed.

Lemma publish_only_last am st :
  only_last am st -> detached am (publish am st).
Proof.
  intros (Hlt & pre & x & Hm & Hpre).
  destruct (lookup_lt_is_Some_2 _ _ Hlt) as [m Hmm].
  rewrite (publish_eq _ _ _ Hmm). split; simpl.
  - rewrite length_app. lia.
  - rewrite Hm, replaceLast_snoc. rewrite not_elem_of_app, not_elem_of_cons.
    split_and!; [done|lia|apply not_elem_of_nil].
Qed.

Lemma publish_detached am st : detached am st -> detached am (publish am st).
Proof.
  intros (Hlt & Hn).
  destruct (lookup_lt_is_Some_2 _ _ Hlt) as [m Hmm].
  rewrite (publish_eq _ _ _ Hmm). split; simpl.
  - rewrite length_app. lia.
  - unfold replaceLast. intros Hin.
    apply list_elem_of_lookup in Hin as [i Hi].
    destruct (decide (i = length (messages st) - 1)%nat) as [->|Hne].
    + destruct (decide (length (messages st) - 1 < length (messages st))%nat).
      * rewrite list_lookup_insert_eq in Hi by done. simplify_eq. lia.
      * rewrite list_insert_ge in Hi by lia.
        apply Hn. apply list_elem_of_lookup. eauto.
    + rewrite list_lookup_insert_ne in Hi by done.
      apply Hn. apply list_elem_of_lookup. eauto.
Qed.

Lemma process_line_detached am st line :
  detached am st -> detached am (process_line am st line).
Proof.
  intros Hd. destruct (process_line_cases am st line) as [->|[[f ->]|[f ->]]].
  - done.
  - destruct Hd. split; [by rewrite mutate_heap_length|done].
  - apply publish_detached. destruct Hd.
    split; [by rewrite mutate_heap_length|done].
Qed.

Lemma process_lines_detached am lines st :
  detached am st -> detached am (process_lines am st lines).
Proof.
  revert st. induction lines as [|l ls IH]; intros st Hd; [done|].
  simpl. apply IH. by apply process_line_detached.
Qed.

Lemma process_line_only_last am st line :
  only_last am st -> only_last am (process_line am st line).
Proof.
  intros Ho. destruct (process_line_cases am st line) as [->|[[f ->]|[f ->]]].
  - done.
  - destruct Ho. split; [by rewrite mutate_heap_length|done].
  - assert (only_last am (mutate am f st)) as Ho'.
    { destruct Ho. split; [by rewrite mutate_heap_length|done]. }
    destruct (publish_only_last _ _ Ho') as [Hlt Hn]. split; [done|].
    destruct Ho' as (Hlt' & pre & x & Hm & Hpre).
    destruct (lookup_lt_is_Some_2 _ _ Hlt') as [m Hmm].
    rewrite (publish_eq _ _ _ Hmm). simpl. simpl in Hm.
    rewrite Hm, replaceLast_snoc. eauto.
Qed.

Lemma on_response_only_last st :
  store_ok st -> only_last (length (heap st)) (on_response st).
Proof.
  intros Hok. split; simpl.
  - rewrite length_app. simpl. lia.
  - exists (messages st), (length (heap st)). split; [done|].
    intros Hin. unfold store_ok in Hok. rewrite Forall_forall in Hok.
    specialize (Hok _ Hin). lia.
Qed.

Lemma process_lines_only_last am lines st :
  only_last am st -> only_last am (process_lines am st lines).
Proof.
  revert st. induction lines as [|l ls IH]; intros st Ho; [done|].
  simpl. apply IH. by apply process_line_only_last.
Qed.





(** ** The states the component reaches *)

(** The flag is set exactly while a call is suspended, so one cell for
    the suspended call is enough. *)
Lemma step_flag_invariant st e st' :
  (loading st = true <-> is_Some (running st)) ->
  step st e = Some st' ->
  (loading st' = true <-> is_Some (running st')).
Proof.
  intros Hinv Hs. destruct e as [v| |msg|msg| |bytes|msg| ]; simpl in Hs.
  - by simplify_eq.
  - simplify_eq. unfold handleSubmit.
    destruct (negb (truthy (trim (input st))) || loading st) eqn:E; [done|].
    simpl. split; eauto.
  - repeat case_match; simplify_eq. simpl. split; [done|]. by intros [? ?].
  - repeat case_match; simplify_eq. simpl. split; [done|]. by intros [? ?].
  - repeat case_match; simplify_eq. simpl. rewrite Hinv. split; eauto.
  - repeat case_match; simplify_eq.
    match goal with
    | H : running st = Some (AwaitRead ?am) |- _ =>
        destruct (process_chunk_frame am st bytes) as (_ & -> & -> & _);
        by rewrite H
    end.
  - repeat case_match; simplify_eq. simpl. split; [done|]. by intros [? ?].
  - repeat case_match; simplify_eq. simpl. split; [done|]. by intros [? ?].
Qed.

Lemma run_app st es1 es2 :
  run st (es1 ++ es2) = st' ← run st es1; run st' es2.
Proof.
  revert st. induction es1 as [|e es1 IH]; intros st; simpl; [done|].
  destruct (step st e); simpl; [apply IH|done].
Qed.

(** The read loop consumes every chunk and stays suspended on the next
    read, with the flag and the other cells as they were. *)
Lemma run_chunks am chunks st :
  running st = Some (AwaitRead am) ->
  exists st', run st (ReadChunk <$> chunks) = Some st'
              /\ same_frame st st'.
Proof.
  revert st. induction chunks as [|value chunks IH]; intros st Hr; simpl.
  - eauto using same_frame_refl.
  - rewrite Hr. simpl.
    pose proof (process_chunk_frame am st value) as Hf.
    destruct (IH (process_chunk am st value)) as (st' & Hrun & Hf').
    { destruct Hf as (_ & _ & -> & _). done. }
    eauto using same_frame_trans.
Qed.

Lemma handleSubmit_accepted st :
  truthy (trim (input st)) = true -> loading st = false ->
  let st' := handleSubmit st in
  loading st' = true /\ running st' = Some AwaitFetch
  /\ length (fetched st') = S (length (fetched st))
  /\ length (messages st') = S (length (messages st)).
Proof.
  intros Hi Hl. unfold handleSubmit. rewrite Hi, Hl. simpl.
  rewrite !length_app. simpl. repeat split; lia.
Qed.

Lemma store_ok_grow st m :
  store_ok st -> Forall (fun l => (l < length (heap st ++ [m]))%nat) (messages st).
Proof.
  unfold store_ok. intros H. eapply Forall_impl; [done|].
  intros l Hl. simpl in *. rewrite length_app. lia.
Qed.

Lemma store_ok_append st m :
  store_ok st ->
  store_ok (setMessages (fun prev => prev ++ [length (heap st)])
              (set_heap (heap st ++ [m]) st)).
Proof.
  intros Hok. unfold store_ok. simpl. apply Forall_app. split.
  - by apply store_ok_grow.
  - apply Forall_singleton. rewrite length_app. simpl. lia.
Qed.

Lemma publish_store_ok am st : store_ok st -> store_ok (publish am st).
Proof.
  intros Hok. unfold publish. destruct (heap st !! am) as [m|]; [|done].
  unfold store_ok, replaceLast. simpl. apply Forall_insert.
  - by apply store_ok_grow.
  - rewrite length_app. simpl. lia.
Qed.

Lemma mutate_store_ok am f st : store_ok st -> store_ok (mutate am f st).
Proof. unfold store_ok. simpl. by rewrite length_alter. Qed.

Lemma process_line_store_ok am st line :
  store_ok st -> store_ok (process_line am st line).
Proof.
  intros Hok. destruct (process_line_cases am st line) as [->|[[f ->]|[f ->]]];
    auto using publish_store_ok, mutate_store_ok.
Qed.

Lemma process_lines_store_ok am lines st :
  store_ok st -> store_ok (process_lines am st lines).
Proof.
  revert st. induction lines as [|l ls IH]; intros st Hok; [done|].
  simpl. apply IH. by apply process_line_store_ok.
Qed.

Lemma initial_ok collection conversationId :
  state_ok (initial collection conversationId).
Proof.
  split_and!; simpl.
  - apply Forall_nil_2.
  - split; [done|]. by intros [? ?].
  - done.
Qed.

Lemma step_ok st e st' : state_ok st -> step st e = Some st' -> state_ok st'.
Proof.
  intros (Hok & Hflag & Ham) Hs.
  pose proof (step_flag_invariant st e st' Hflag Hs) as Hflag'.
  split_and!; [|done|].
  - destruct e as [v| |msg|msg| |bytes|msg| ]; simpl in Hs;
      repeat case_match; simplify_eq; try done.
    + unfold handleSubmit. case_match; [done|]. by apply store_ok_append.
    + by apply (store_ok_append st).
    + by apply (store_ok_append st).
    + by apply (store_ok_append st).
    + by apply process_lines_store_ok.
    + by apply (store_ok_append st).
  - intros am Hr.
    destruct e as [v| |msg|msg| |bytes|msg| ]; simpl in Hs;
      repeat case_match; simplify_eq; try done.
    + by apply Ham.
    + unfold handleSubmit in Hr |- *. case_match; [by apply Ham|done].
    + simpl in Hr. simplify_eq. left. by apply on_response_only_last.
    + match goal with
      | H : running st = Some (AwaitRead ?am') |- _ =>
          destruct (process_chunk_frame am' st bytes) as (_ & _ & Hr' & _);
          rewrite Hr, H in Hr'; simplify_eq;
          destruct (Ham _ eq_refl) as [Ho|Hd]
      end.
      * left. by apply process_lines_only_last.
      * right. by apply process_lines_detached.
Qed.

Lemma run_ok es st st' : state_ok st -> run st es = Some st' -> state_ok st'.
Proof.
  revert st. induction es as [|e es IH]; intros st Hok Hr; simpl in Hr.
  - by simplify_eq.
  - destruct (step st e) as [st1|] eqn:E; [|done]. simpl in Hr.
    eauto using step_ok.
Qed.

(** ** The submission lifecycle *)

(** C4. A submit while the input is empty or only white space, or while a
    submission is active, is a no-op: the state is the same afterwards (no
    user message is appended, no request is made, the store and the flag
    are as they were), and what the events that follow produce is what
    they produce without that submit. *)
Theorem C4_submit_rejected st :
  state_ok st ->
  truthy (trim (input st)) = false \/ is_Some (running st) ->
  step st Submit = Some st
  /\ forall es, run st (Submit :: es) = run st es.
Proof.
  intros (_ & Hflag & _) H.
  assert (handleSubmit st = st) as E.
  { unfold handleSubmit. destruct H as [-> | Hr]; [done|].
    apply Hflag in Hr. by rewrite Hr, orb_true_r. }
  split; [simpl; by rewrite E|]. intros es. simpl. by rewrite E.
Qed.

(** C7. Whatever the network does with a request (no connection, a
    response without a body, a stream that ends, a stream that breaks off;
    the chunks may carry error records or anything else), the call of
    [handleSubmit] comes to its end with the flag cleared, and a submit of
    a non-blank input is accepted again: it sets the flag, appends a user
    message and makes a request. *)
Theorem C7_flag_cleared_on_every_outcome st o :
  state_ok st -> running st = None -> truthy (trim (input st)) = true ->
  exists st',
    run st (Submit :: events_of o) = Some st'
    /\ state_ok st' /\ loading st' = false /\ running st' = None
    /\ forall v, truthy (trim v) = true ->
       exists st'', step (setInput v st') Submit = Some st''
         /\ loading st'' = true /\ running st'' = Some AwaitFetch
         /\ length (fetched st'') = S (length (fetched st'))
         /\ length (messages st'') = S (length (messages st')).
Proof.
  intros Hok Hr Hi.
  assert (loading st = false) as Hl.
  { destruct Hok as (_ & Hflag & _). rewrite Hr in Hflag.
    destruct (loading st); [|done]. by destruct (proj1 Hflag eq_refl). }
  destruct (handleSubmit_accepted st Hi Hl) as (Hl1 & Hr1 & _).
  assert (forall st', loading st' = false ->
    forall v, truthy (trim v) = true ->
    exists st'', step (setInput v st') Submit = Some st''
      /\ loading st'' = true /\ running st'' = Some AwaitFetch
      /\ length (fetched st'') = S (length (fetched st'))
      /\ length (messages st'') = S (length (messages st'))) as Hagain.
  { intros st' Hl' v Hv. eexists; split; [done|].
    by apply (handleSubmit_accepted (setInput v st') Hv Hl'). }
  assert (exists st', run st (Submit :: events_of o) = Some st'
            /\ loading st' = false /\ running st' = None) as (st' & Hrun & Hl' & Hr').
  { cbn [run step]. cbn [mbind option_bind].
    set (st1 := handleSubmit st) in *.
    destruct o as [msg|msg|chunks|chunks msg]; cbn [events_of run step].
    - rewrite Hr1. cbn [mbind option_bind]. by exists (on_error msg st1).
    - rewrite Hr1. cbn [mbind option_bind]. by exists (on_error msg st1).
    - rewrite Hr1. cbn [mbind option_bind]. rewrite run_app.
      destruct (run_chunks (length (heap st1)) chunks (on_response st1))
        as (st2 & -> & Hf); [done|].
      destruct Hf as (_ & _ & Hr2 & _). simpl in Hr2.
      cbn [mbind option_bind run step]. rewrite Hr2. cbn [mbind option_bind].
      by exists (on_done st2).
    - rewrite Hr1. cbn [mbind option_bind]. rewrite run_app.
      destruct (run_chunks (length (heap st1)) chunks (on_response st1))
        as (st2 & -> & Hf); [done|].
      destruct Hf as (_ & _ & Hr2 & _). simpl in Hr2.
      cbn [mbind option_bind run step]. rewrite Hr2. cbn [mbind option_bind].
      by exists (on_error msg st2). }
  exists st'. split_and!; [done| |done|done|by apply Hagain].
  by apply (run_ok _ _ _ Hok Hrun).
Qed.

End Properties.

(** ** The chunk decoder *)

Lemma shiftr_div (c : Z) (k : Z) : 0 <= k -> Z.shiftr c k = c / 2 ^ k.
Proof. intros. by apply Z.shiftr_div_pow2. Qed.

Lemma land_mod (x k : Z) : 0 <= k -> Z.land x (Z.ones k) = x mod 2 ^ k.
Proof. intros. by apply Z.land_ones. Qed.

Lemma lor_shiftl_6 (q r : Z) :
  0 <= q -> 0 <= r < 64 -> Z.lor (Z.shiftl q 6) r = 64 * q + r.
Proof.
  intros Hq Hr. rewrite Z.shiftl_mul_pow2 by lia.
  assert (Z.land (q * 2 ^ 6) r = 0) as Hd.
  { apply Z.bits_inj'. intros n Hn. rewrite Z.land_spec, Z.bits_0.
    destruct (Z.lt_ge_cases n 6).
    - by rewrite Z.mul_pow2_bits_low.
    - rewrite <- (Z.mod_small r (2 ^ 6)) by lia.
      rewrite Z.mod_pow2_bits_high by lia. apply andb_false_r. }
  rewrite <- Z.lxor_lor, <- Z.add_nocarry_lxor by done. lia.
Qed.

Ltac bits_to_arith :=
  change 0x3F with (Z.ones 6) in *; change 0x1F with (Z.ones 5) in *;
  change 0xF with (Z.ones 4) in *; change 0x7 with (Z.ones 3) in *;
  change 0x3FF with (Z.ones 10) in *;
  rewrite ?shiftr_div, ?land_mod in * by lia;
  change (2 ^ 3) with 8 in *; change (2 ^ 4) with 16 in *;
  change (2 ^ 5) with 32 in *; change (2 ^ 6) with 64 in *;
  change (2 ^ 10) with 1024 in *; change (2 ^ 12) with 4096 in *;
  change (2 ^ 18) with 262144 in *.

Lemma utf8_lead_continuation (b : Z) :
  0x80 <= b <= 0xBF -> utf8_lead b = DecodeError.
Proof.
  intros H. unfold utf8_lead.
  repeat match goal with
  | |- context [?a <=? ?b] =>
      first [ rewrite (proj2 (Z.leb_le a b)) by lia
            | rewrite (proj2 (Z.leb_gt a b)) by lia ]
  end. done.
Qed.

Ltac arith := Z.div_mod_to_equations; lia.

Ltac solve_tests :=
  repeat match goal with
  | |- context [?a <=? ?b] =>
      first [ rewrite (proj2 (Z.leb_le a b)) by arith
            | rewrite (proj2 (Z.leb_gt a b)) by arith ]
  | |- context [?a <? ?b] =>
      first [ rewrite (proj2 (Z.ltb_lt a b)) by arith
            | rewrite (proj2 (Z.ltb_ge a b)) by arith ]
  | |- context [?a =? ?b] =>
      first [ rewrite (proj2 (Z.eqb_eq a b)) by arith
            | rewrite (proj2 (Z.eqb_neq a b)) by arith ]
  end.

Lemma utf8_run_open_end (s : utf8_state) :
  bytes_needed s <> 0 -> utf8_run s [] = [REPLACEMENT].
Proof. intros H. simpl. by rewrite (proj2 (Z.eqb_neq _ _) H). Qed.

Lemma utf8_run_lead (b : Z) (q : list Z) :
  utf8_run utf8_init (b :: q) =
  match utf8_lead b with
  | Emit c => c :: utf8_run utf8_init q
  | Continue s' => utf8_run s' q
  | DecodeError => REPLACEMENT :: utf8_run utf8_init q
  end.
Proof. done. Qed.

Lemma utf8_run_continue (s : utf8_state) (b : Z) (q : list Z) :
  bytes_needed s <> 0 -> lower_boundary s <= b <= upper_boundary s ->
  utf8_run s (b :: q) =
  let cp := Z.lor (Z.shiftl (code_point s) 6) (Z.land b 0x3F) in
  if bytes_seen s + 1 =? bytes_needed s then cp :: utf8_run utf8_init q
  else utf8_run {| code_point := cp; bytes_seen := bytes_seen s + 1;
                   bytes_needed := bytes_needed s;
                   lower_boundary := 0x80; upper_boundary := 0xBF |} q.
Proof.
  intros Hn Hb. cbn [utf8_run].
  rewrite (proj2 (Z.eqb_neq _ _) Hn).
  rewrite (proj2 (Z.ltb_ge _ _)), (proj2 (Z.ltb_ge _ _)) by lia. done.
Qed.

Lemma utf8_run_continuations (b2 q : list Z) :
  Forall (fun b => 0x80 <= b <= 0xBF) b2 ->
  utf8_run utf8_init (b2 ++ q)
  = replicate (length b2) REPLACEMENT ++ utf8_run utf8_init q.
Proof.
  induction 1 as [|b b2 Hb _ IH]; [done|]. cbn [app].
  rewrite utf8_run_lead, utf8_lead_continuation by done. simpl. by rewrite IH.
Qed.

Lemma utf8_lead_ascii (b : Z) : 0 <= b <= 0x7F -> utf8_lead b = Emit b.
Proof. intros H. unfold utf8_lead. by solve_tests. Qed.

Lemma utf8_lead_2 (b : Z) :
  0xC2 <= b <= 0xDF ->
  utf8_lead b = Continue {| code_point := b - 0xC0; bytes_seen := 0; bytes_needed := 1;
                            lower_boundary := 0x80; upper_boundary := 0xBF |}.
Proof.
  intros H. unfold utf8_lead. solve_tests. simpl. do 2 f_equal.
  bits_to_arith. arith.
Qed.

Lemma utf8_lead_3 (b : Z) :
  0xE0 <= b <= 0xEF ->
  utf8_lead b = Continue {| code_point := b - 0xE0; bytes_seen := 0; bytes_needed := 2;
                            lower_boundary := if b =? 0xE0 then 0xA0 else 0x80;
                            upper_boundary := if b =? 0xED then 0x9F else 0xBF |}.
Proof.
  intros H. unfold utf8_lead.
  rewrite (proj2 (Z.leb_le 0 b)), (proj2 (Z.leb_gt b 0x7F)),
    (proj2 (Z.leb_le 0xC2 b)), (proj2 (Z.leb_gt b 0xDF)),
    (proj2 (Z.leb_le 0xE0 b)), (proj2 (Z.leb_le b 0xEF)) by lia.
  simpl. f_equal. f_equal. bits_to_arith. arith.
Qed.

Lemma utf8_lead_4 (b : Z) :
  0xF0 <= b <= 0xF4 ->
  utf8_lead b = Continue {| code_point := b - 0xF0; bytes_seen := 0; bytes_needed := 3;
                            lower_boundary := if b =? 0xF0 then 0x90 else 0x80;
                            upper_boundary := if b =? 0xF4 then 0x8F else 0xBF |}.
Proof.
  intros H. unfold utf8_lead.
  rewrite (proj2 (Z.leb_le 0 b)), (proj2 (Z.leb_gt b 0x7F)),
    (proj2 (Z.leb_le 0xC2 b)), (proj2 (Z.leb_gt b 0xDF)),
    (proj2 (Z.leb_le 0xE0 b)), (proj2 (Z.leb_gt b 0xEF)),
    (proj2 (Z.leb_le 0xF0 b)), (proj2 (Z.leb_le b 0xF4)) by lia.
  simpl. f_equal. f_equal. bits_to_arith. arith.
Qed.

(** A continuation byte within the boundaries adds its six bits. *)
Lemma utf8_run_add_bits (s : utf8_state) (b : Z) (q : list Z) :
  bytes_needed s <> 0 -> lower_boundary s <= b <= upper_boundary s ->
  0x80 <= b <= 0xBF -> 0 <= code_point s ->
  utf8_run s (b :: q) =
  if bytes_seen s + 1 =? bytes_needed s
  then (64 * code_point s + (b - 0x80)) :: utf8_run utf8_init q
  else utf8_run {| code_point := 64 * code_point s + (b - 0x80);
                   bytes_seen := bytes_seen s + 1;
                   bytes_needed := bytes_needed s;
                   lower_boundary := 0x80; upper_boundary := 0xBF |} q.
Proof.
  intros Hn Hb Hc Hp. rewrite utf8_run_continue by done. cbv zeta.
  assert (Z.land b 0x3F = b - 0x80) as -> by (bits_to_arith; arith).
  by rewrite lor_shiftl_6 by lia.
Qed.

Lemma utf8_encode_2 (c : Z) :
  0x80 <= c <= 0x7FF -> utf8_encode c = [0xC0 + c / 64; 0x80 + c mod 64].
Proof. intros H. unfold utf8_encode. solve_tests. by bits_to_arith. Qed.

Lemma utf8_encode_3 (c : Z) :
  0x800 <= c <= 0xFFFF ->
  utf8_encode c = [0xE0 + c / 4096; 0x80 + (c / 64) mod 64; 0x80 + c mod 64].
Proof. intros H. unfold utf8_encode. solve_tests. by bits_to_arith. Qed.

Lemma utf8_encode_4 (c : Z) :
  0x10000 <= c ->
  utf8_encode c = [0xF0 + c / 262144; 0x80 + (c / 4096) mod 64;
                   0x80 + (c / 64) mod 64; 0x80 + c mod 64].
Proof. intros H. unfold utf8_encode. solve_tests. by bits_to_arith. Qed.

Ltac side :=
  cbn [bytes_needed lower_boundary upper_boundary code_point bytes_seen];
  repeat match goal with
  | |- context [?a =? ?b] => destruct (Z.eqb_spec a b)
  end; arith.

Ltac open_sequence :=
  rewrite utf8_run_lead;
  first [ rewrite utf8_lead_2 by arith
        | rewrite utf8_lead_3 by arith
        | rewrite utf8_lead_4 by arith ].

Lemma utf8_run_last_bits (s : utf8_state) (b : Z) (q : list Z) :
  bytes_needed s <> 0 -> lower_boundary s <= b <= upper_boundary s ->
  0x80 <= b <= 0xBF -> 0 <= code_point s ->
  bytes_seen s + 1 = bytes_needed s ->
  utf8_run s (b :: q) = (64 * code_point s + (b - 0x80)) :: utf8_run utf8_init q.
Proof.
  intros Hn Hb Hc Hp Hl. rewrite utf8_run_add_bits by done.
  by rewrite (proj2 (Z.eqb_eq _ _) Hl).
Qed.

Lemma utf8_run_more_bits (s : utf8_state) (b : Z) (q : list Z) :
  bytes_needed s <> 0 -> lower_boundary s <= b <= upper_boundary s ->
  0x80 <= b <= 0xBF -> 0 <= code_point s ->
  bytes_seen s + 1 <> bytes_needed s ->
  utf8_run s (b :: q) =
  utf8_run {| code_point := 64 * code_point s + (b - 0x80);
              bytes_seen := bytes_seen s + 1;
              bytes_needed := bytes_needed s;
              lower_boundary := 0x80; upper_boundary := 0xBF |} q.
Proof.
  intros Hn Hb Hc Hp Hl. rewrite utf8_run_add_bits by done.
  by rewrite (proj2 (Z.eqb_neq _ _) Hl).
Qed.

Ltac add_bits :=
  first [ rewrite utf8_run_last_bits by side
        | rewrite utf8_run_more_bits by side ];
  cbn [bytes_needed lower_boundary upper_boundary code_point bytes_seen].

(** The decoder on the encoding of a scalar value, and on a proper prefix
    of it. *)
Lemma utf8_run_encode (c : Z) (q : list Z) :
  is_scalar c -> utf8_run utf8_init (utf8_encode c ++ q) = c :: utf8_run utf8_init q.
Proof.
  intros Hs. unfold is_scalar in Hs.
  destruct (Z.le_gt_cases c 0x7F); [|destruct (Z.le_gt_cases c 0x7FF);
    [|destruct (Z.le_gt_cases c 0xFFFF)]].
  - unfold utf8_encode. rewrite (proj2 (Z.leb_le c 0x7F)) by done. cbn [app].
    rewrite utf8_run_lead, utf8_lead_ascii by lia. done.
  - rewrite utf8_encode_2 by lia. cbn [app]. open_sequence. add_bits.
    f_equal. arith.
  - rewrite utf8_encode_3 by lia. cbn [app]. open_sequence. add_bits. add_bits.
    f_equal. arith.
  - rewrite utf8_encode_4 by lia. cbn [app]. open_sequence. add_bits. add_bits.
    add_bits. f_equal. arith.
Qed.

(** Complete characters decode to themselves, whatever follows them. *)
Lemma utf8_run_encode_all (cs : list Z) (q : list Z) :
  Forall is_scalar cs ->
  utf8_run utf8_init (utf8_encode_all cs ++ q) = cs ++ utf8_run utf8_init q.
Proof.
  induction 1 as [|c cs Hc _ IH]; [done|].
  unfold utf8_encode_all in *. rewrite bind_cons, <- app_assoc.
  rewrite utf8_run_encode by done. simpl. by rewrite IH.
Qed.

Lemma split_2 {A} (x y : A) (b1 b2 : list A) :
  [x; y] = b1 ++ b2 -> b1 <> [] -> b2 <> [] -> b1 = [x] /\ b2 = [y].
Proof.
  intros H H1 H2. destruct b1 as [|a1 [|a2 [|a3 b1]]]; simplify_eq/=; done.
Qed.

Lemma split_3 {A} (x y z : A) (b1 b2 : list A) :
  [x; y; z] = b1 ++ b2 -> b1 <> [] -> b2 <> [] ->
  (b1 = [x] /\ b2 = [y; z]) \/ (b1 = [x; y] /\ b2 = [z]).
Proof.
  intros H H1 H2.
  destruct b1 as [|a1 [|a2 [|a3 [|a4 b1]]]]; simplify_eq/=; auto.
Qed.

Lemma split_4 {A} (x y z w : A) (b1 b2 : list A) :
  [x; y; z; w] = b1 ++ b2 -> b1 <> [] -> b2 <> [] ->
  (b1 = [x] /\ b2 = [y; z; w]) \/ (b1 = [x; y] /\ b2 = [z; w])
  \/ (b1 = [x; y; z] /\ b2 = [w]).
Proof.
  intros H H1 H2.
  destruct b1 as [|a1 [|a2 [|a3 [|a4 [|a5 b1]]]]]; simplify_eq/=; auto.
Qed.

Lemma utf16_replacements (n : nat) :
  utf16_all (replicate n REPLACEMENT) = replicate n REPLACEMENT.
Proof.
  unfold utf16_all. induction n as [|n IH]; [done|].
  cbn [replicate]. by rewrite bind_cons, IH.
Qed.

Ltac close_open_sequence :=
  rewrite utf8_run_open_end by (cbn [bytes_needed]; lia).

(** The two parts of an encoding cut in two: the first leaves a sequence
    open at the end of the queue, the second is continuation bytes only. *)
Lemma utf8_run_split (c : Z) (b1 b2 : list Z) :
  is_scalar c -> utf8_encode c = b1 ++ b2 -> b1 <> [] -> b2 <> [] ->
  utf8_run utf8_init b1 = [REPLACEMENT]
  /\ Forall (fun b => 0x80 <= b <= 0xBF) b2.
Proof.
  intros Hs He H1 H2. unfold is_scalar in Hs.
  destruct (Z.le_gt_cases c 0x7F); [|destruct (Z.le_gt_cases c 0x7FF);
    [|destruct (Z.le_gt_cases c 0xFFFF)]].
  - unfold utf8_encode in He. rewrite (proj2 (Z.leb_le c 0x7F)) in He by done.
    destruct b1 as [|? [|? ?]]; simplify_eq/=; done.
  - rewrite utf8_encode_2 in He by lia.
    destruct (split_2 _ _ _ _ He H1 H2) as [-> ->]. split.
    + open_sequence. by close_open_sequence.
    + repeat constructor; arith.
  - rewrite utf8_encode_3 in He by lia.
    destruct (split_3 _ _ _ _ _ He H1 H2) as [[-> ->]|[-> ->]]; split.
    + open_sequence. by close_open_sequence.
    + repeat constructor; arith.
    + open_sequence. add_bits. by close_open_sequence.
    + repeat constructor; arith.
  - rewrite utf8_encode_4 in He by lia.
    destruct (split_4 _ _ _ _ _ _ He H1 H2) as [[-> ->]|[[-> ->]|[-> ->]]]; split.
    + open_sequence. by close_open_sequence.
    + repeat constructor; arith.
    + open_sequence. add_bits. by close_open_sequence.
    + repeat constructor; arith.
    + open_sequence. add_bits. add_bits. by close_open_sequence.
    + repeat constructor; arith.
Qed.

(** C3, as the code has it. Every chunk is decoded by itself, from a fresh
    decoder that is flushed at the end of the chunk. Text whose characters
    all lie within one chunk decodes to that text (U+FEFF at the start of
    a chunk is taken for a byte order mark and dropped). A character whose
    encoded bytes are cut by a chunk boundary is not reassembled: the
    bytes before the boundary give one U+FFFD at the end of the first
    chunk's text, and each byte after the boundary gives one U+FFFD at the
    start of the next chunk's text. *)
Theorem C3_chunks_decoded_separately (cs ds : list Z) (c : Z) (b1 b2 : list Z) :
  Forall is_scalar cs -> is_scalar c -> Forall is_scalar ds ->
  utf8_encode c = b1 ++ b2 -> b1 <> [] -> b2 <> [] ->
  TextDecoder_decode (utf8_encode_all (cs ++ c :: ds))
  = utf16_all (strip_bom (cs ++ c :: ds))
  /\ TextDecoder_decode (utf8_encode_all cs ++ b1)
    = utf16_all (strip_bom (cs ++ [0xFFFD]))
  /\ TextDecoder_decode (b2 ++ utf8_encode_all ds)
    = replicate (length b2) 0xFFFD ++ utf16_all ds.
Proof.
  intros Hcs Hc Hds He H1 H2.
  destruct (utf8_run_split c b1 b2 Hc He H1 H2) as [E1 E2].
  unfold TextDecoder_decode. fold utf16_all. split_and!.
  - rewrite <- (app_nil_r (utf8_encode_all _)), utf8_run_encode_all.
    + by rewrite app_nil_r.
    + apply Forall_app. split; [done|]. by constructor.
  - by rewrite utf8_run_encode_all, E1.
  - rewrite utf8_run_continuations by done.
    rewrite <- (app_nil_r (utf8_encode_all ds)), utf8_run_encode_all by done.
    cbn [utf8_run]. rewrite app_nil_r.
    destruct b2 as [|b b2]; [done|]. cbn [length replicate app strip_bom].
    change (REPLACEMENT =? 0xFEFF) with false. cbv iota.
    change (REPLACEMENT :: replicate (length b2) REPLACEMENT ++ ds)
      with (replicate (S (length b2)) REPLACEMENT ++ ds).
    unfold utf16_all at 1. rewrite bind_app. fold utf16_all.
    by rewrite utf16_replacements.
Qed.

(** ** Concrete streams *)

Ltac record :=
  eexists; split; [split; [reflexivity | vm_compute; reflexivity]
                  | split; reflexivity].

Example streaming_state :
  snapshot streaming = [Some question; Some placeholder]
  /\ running streaming = Some (AwaitRead 1) /\ loading streaming = true.
Proof. by vm_compute. Qed.

Lemma C1_witness :
  heap (process_lines 1 streaming [line_Hel; line_lo]) !! 1%nat
  = Some {| role := assistant; content := js "Hello"; sources := VArray [] |}
  /\ (messages streaming <> [] -> [js "Hel"; js "lo"] <> [] ->
      last (snapshot (process_lines 1 streaming [line_Hel; line_lo]))
      = Some (Some {| role := assistant; content := js "Hello";
                      sources := VArray [] |})).
Proof.
  apply (C1_tokens_concatenate 1 streaming placeholder
           [line_Hel; line_lo] [js "Hel"; js "lo"]).
  - reflexivity.
  - reflexivity.
  - repeat constructor; record.
Defined.

(** The two lines of the specification's example give the content
    ["Hello"], both when they come in one chunk and when each comes in a
    chunk of its own. *)
Example hello_stream :
  snapshot <$> run typed
    [Submit; FetchResolved; ReadChunk (line_Hel ++ [10] ++ line_lo ++ [10]); ReadDone]
  = Some [Some question; Some (set_content (js "Hello") placeholder)]
  /\ snapshot <$> run typed
    [Submit; FetchResolved; ReadChunk (line_Hel ++ [10]); ReadChunk (line_lo ++ [10]);
     ReadDone]
  = Some [Some question; Some (set_content (js "Hello") placeholder)].
Proof. by vm_compute. Qed.

(** C2 fails on the code: a record cut by a chunk boundary is lost. The
    chunk ["da"] and the chunk that holds the rest of the line leave the
    content empty, where the same bytes in one chunk give the content
    ["A"]. *)
Lemma C2_counterexample :
  snapshot <$> run typed
    [Submit; FetchResolved; ReadChunk (js "da");
     ReadChunk (jsq "ta: {'type':'token','content':'A'}" ++ [10]); ReadDone]
  = Some [Some question; Some placeholder]
  /\ snapshot <$> run typed
    [Submit; FetchResolved;
     ReadChunk (js "da" ++ jsq "ta: {'type':'token','content':'A'}" ++ [10]); ReadDone]
  = Some [Some question; Some (set_content (js "A") placeholder)].
Proof. by vm_compute. Qed.

Lemma C2_witness :
  process_chunk 1 streaming (line_A ++ 10 :: js "da")
  = process_line 1
      (process_lines 1 streaming (split 10 line_A)) (js "da").
Proof.
  refine (proj2 (C2_tail_processed_at_once 1 streaming
                   (line_A ++ 10 :: js "da") (js "da") _) line_A _).
  - vm_compute. intros H. repeat (apply elem_of_cons in H as [H|H]; [lia|]).
    by apply elem_of_nil in H.
  - vm_compute. reflexivity.
Defined.

(** C3 fails on the code: the two bytes of U+00E9 in two chunks decode to
    two replacement characters, where one chunk gives the character. *)
Lemma C3_counterexample :
  TextDecoder_decode [0xC3] ++ TextDecoder_decode [0xA9] = [0xFFFD; 0xFFFD]
  /\ TextDecoder_decode [0xC3; 0xA9] = [0xE9].
Proof. by vm_compute. Qed.

Ltac scalars :=
  match goal with
  | |- Forall is_scalar ?cs =>
      let l := eval vm_compute in cs in
      change (Forall is_scalar l);
      repeat (apply Forall_cons_2; [left; lia|]); apply Forall_nil_2
  end.

Lemma C3_witness :
  TextDecoder_decode (utf8_encode_all (js "caf" ++ 0xE9 :: js "!"))
  = utf16_all (strip_bom (js "caf" ++ 0xE9 :: js "!"))
  /\ TextDecoder_decode (utf8_encode_all (js "caf") ++ [0xC3])
    = utf16_all (strip_bom (js "caf" ++ [0xFFFD]))
  /\ TextDecoder_decode ([0xA9] ++ utf8_encode_all (js "!"))
    = replicate (length [0xA9]) 0xFFFD ++ utf16_all (js "!").
Proof.
  apply (C3_chunks_decoded_separately (js "caf") (js "!") 0xE9 [0xC3] [0xA9]).
  - scalars.
  - left. lia.
  - scalars.
  - reflexivity.
  - discriminate.
  - discriminate.
Defined.

(** In a stream, the record that holds the cut character is cut as well,
    and both halves are skipped. *)
Example split_character_stream :
  snapshot <$> run typed
    [Submit; FetchResolved;
     ReadChunk (jsq "data: {'type':'token','content':'caf" ++ [0xC3]);
     ReadChunk ([0xA9] ++ jsq "'}" ++ [10]); ReadDone]
  = Some [Some question; Some placeholder]
  /\ snapshot <$> run typed
    [Submit; FetchResolved;
     ReadChunk (jsq "data: {'type':'token','content':'caf" ++ [0xC3; 0xA9]
                ++ jsq "'}" ++ [10]); ReadDone]
  = Some [Some question; Some (set_content (js "caf" ++ [0xE9]) placeholder)].
Proof. by vm_compute. Qed.

Lemma typed_ok : state_ok typed.
Proof.
  apply (run_ok [Change (js "hi")] (initial (js "default") (js "k3x9q2m1a")));
    [apply initial_ok|reflexivity].
Qed.

Lemma streaming_ok : state_ok streaming.
Proof. apply (run_ok [Submit; FetchResolved] typed); [apply typed_ok|reflexivity]. Qed.

Lemma C4_witness :
  step streaming Submit = Some streaming
  /\ forall es, run streaming (Submit :: es)
                = run streaming es.
Proof.
  apply (C4_submit_rejected streaming).
  - apply streaming_ok.
  - right. by eexists.
Defined.

(** The same for an input of white space only. *)
Example blank_submit_rejected :
  step (setInput (js "   ") typed) Submit
  = Some (setInput (js "   ") typed).
Proof. by vm_compute. Qed.

Lemma C5_witness :
  heap (process_line 1 streaming line_sources_ab) !! 1%nat
  = Some {| role := assistant; content := [];
            sources := VArray [source "a"; source "b"] |}
  /\ heap (process_lines 1 streaming
            [line_sources_ab; line_sources_c]) !! 1%nat
  = Some {| role := assistant; content := []; sources := VArray [source "c"] |}.
Proof.
  apply (C5_sources_replace 1 streaming placeholder
           line_sources_ab line_sources_c).
  - reflexivity.
  - record.
  - record.
Defined.

Lemma C6_witness :
  (forall st', process_line 1 st' line_garbage = st')
  /\ heap (process_lines 1 streaming
            [line_A; line_garbage; line_B]) !! 1%nat
  = Some {| role := assistant; content := js "AB"; sources := VArray [] |}.
Proof.
  apply (C6_malformed_line_skipped 1 streaming placeholder
           line_A line_garbage line_B (js "A") (js "B")).
  - reflexivity.
  - record.
  - right. left. vm_compute. reflexivity.
  - record.
Defined.

(** A record of an unknown type and a line without the prefix are skipped
    as well. *)
Example unknown_records_skipped :
  snapshot <$> run typed
    [Submit; FetchResolved;
     ReadChunk (line_A ++ [10] ++ jsq "data: {'type':'ping'}" ++ [10]
                ++ jsq ": keep-alive" ++ [10] ++ jsq "data: null" ++ [10]
                ++ line_B ++ [10]);
     ReadDone]
  = Some [Some question; Some (set_content (js "AB") placeholder)].
Proof. by vm_compute. Qed.

Lemma C7_witness :
  exists st',
    run typed (Submit :: events_of (StreamFails [line_Hel ++ [10]] (js "network error")))
    = Some st'
    /\ state_ok st' /\ loading st' = false /\ running st' = None
    /\ forall v, truthy (trim v) = true ->
       exists st'', step (setInput v st') Submit = Some st''
         /\ loading st'' = true /\ running st'' = Some AwaitFetch
         /\ length (fetched st'') = S (length (fetched st'))
         /\ length (messages st'') = S (length (messages st')).
Proof.
  apply (C7_flag_cleared_on_every_outcome typed
           (StreamFails [line_Hel ++ [10]] (js "network error"))).
  - apply typed_ok.
  - reflexivity.
  - reflexivity.
Defined.

(** A stream that breaks off: the text received so far stays, a message
    with the error is appended after it, and the flag is cleared. *)
Example broken_stream :
  (fun st => (snapshot st, loading st)) <$> run typed
    (Submit :: events_of (StreamFails [line_Hel ++ [10]] (js "network error")))
  = Some ([Some question; Some (set_content (js "Hel") placeholder);
           Some {| role := assistant; content := js "Error: network error";
                   sources := VUndefined |}], false).
Proof. by vm_compute. Qed.

(** An error record in a stream that goes on: the flag stays set until the
    stream ends. *)
Example error_record_then_end :
  loading <$> run typed
    [Submit; FetchResolved; ReadChunk (line_error ++ [10])] = Some true
  /\ (fun st => (snapshot st, loading st)) <$> run typed
    [Submit; FetchResolved; ReadChunk (line_error ++ [10]); ReadDone]
  = Some ([Some question; Some (set_content (js "Error: boom") placeholder)], false).
Proof. by vm_compute. Qed.

Lemma C8_witness :
  heap (process_line 1
          (process_line 1 streaming line_Hel) line_error) !! 1%nat
  = Some {| role := assistant; content := js "Error: boom"; sources := VArray [] |}
  /\ (messages (process_line 1 streaming line_Hel) <> [] ->
      last (snapshot (process_line 1
                        (process_line 1 streaming line_Hel)
                        line_error))
      = Some (Some {| role := assistant; content := js "Error: boom";
                      sources := VArray [] |})).
Proof.
  apply (C8_error_replaces_content 1
           (process_line 1 streaming line_Hel)
           {| role := assistant; content := js "Hel"; sources := VArray [] |}
           line_error (js "boom")).
  - vm_compute. reflexivity.
  - record.
Defined.

(** C9 fails on the code: a line that holds the prefix after other text is
    skipped, where the text from the prefix on is a token record. *)
Lemma C9_counterexample :
  process_line 1 streaming (js "id: 7 " ++ line_A) = streaming
  /\ heap (process_line 1 streaming line_A) !! 1%nat
     = Some (set_content (js "A") placeholder).
Proof. by vm_compute. Qed.

Lemma C9_witness :
  heap (process_line 1 streaming
          (js "data: " ++ jsq "{'type':'token','content':'A'}")) !! 1%nat
  = Some (set_content (js "A") placeholder)
  /\ process_line 1 streaming (js ": keep-alive") = streaming
  /\ process_line 1 streaming (105 :: js "d: 7 " ++ js "data: " ++ jsq "{'type':'token','content':'A'}")
     = streaming.
Proof.
  destruct (C9_prefix_at_line_start 1 streaming) as (H1 & H2 & H3).
  split_and!.
  - rewrite H1. vm_compute. reflexivity.
  - apply H2. vm_compute. reflexivity.
  - apply H3. lia.
Defined.



(** The line of the witness is one on which no setter is called. *)
Example garbage_is_quiet : quiet_line line_garbage.
Proof. left. right. left. by vm_compute. Qed.

(** * More of the code *)

Section More.
Context {host : Host}.

Lemma same_but_last_refl st : same_but_last st st.
Proof. by split. Qed.

Lemma same_but_last_trans st1 st2 st3 :
  same_but_last st1 st2 -> same_but_last st2 st3 -> same_but_last st1 st3.
Proof.
  intros [L1 H1] [L2 H2]. split; [congruence|].
  intros i Hi. rewrite H2 by lia. by apply H1.
Qed.

Lemma snapshot_lookup st i :
  snapshot st !! i = (fun l => heap st !! l) <$> (messages st !! i).
Proof. unfold snapshot. apply list_lookup_fmap. Qed.

(** An assignment to the in-progress object does not show in the store
    before its last element. *)
Lemma mutate_same_but_last am f st :
  only_last am st \/ detached am st -> same_but_last st (mutate am f st).
Proof.
  intros Ham. split; [done|]. intros i Hi. rewrite !snapshot_lookup. simpl.
  destruct (messages st !! i) as [l|] eqn:E; [|done]. simpl.
  rewrite list_lookup_alter_ne; [done|]. intros ->.
  destruct Ham as [(_ & pre & x & Hm & Hpre)|(_ & Hn)].
  - apply Hpre. rewrite Hm in E, Hi. rewrite length_app in Hi. simpl in Hi.
    rewrite lookup_app_l in E by lia. apply list_elem_of_lookup. eauto.
  - apply Hn. apply list_elem_of_lookup. eauto.
Qed.

Lemma publish_same_but_last am st :
  store_ok st -> same_but_last st (publish am st).
Proof.
  intros Hok. unfold publish. destruct (heap st !! am) as [m|]; [|apply same_but_last_refl].
  split; simpl.
  - unfold replaceLast. by rewrite length_insert.
  - intros i Hi. rewrite !snapshot_lookup. simpl. unfold replaceLast.
    rewrite list_lookup_insert_ne by lia.
    destruct (messages st !! i) as [l|] eqn:E; [|done]. simpl. f_equal.
    apply lookup_app_l. unfold store_ok in Hok. rewrite Forall_forall in Hok.
    apply Hok. apply list_elem_of_lookup. eauto.
Qed.

Lemma mutate_shape am f st :
  only_last am st \/ detached am st ->
  only_last am (mutate am f st) \/ detached am (mutate am f st).
Proof.
  intros [[H1 H2]|[H1 H2]]; [left|right]; (split; [by rewrite mutate_heap_length|done]).
Qed.

Lemma process_line_same_but_last am st line :
  store_ok st -> only_last am st \/ detached am st ->
  same_but_last st (process_line am st line).
Proof.
  intros Hok Ham.
  destruct (process_line_cases am st line) as [->|[[f ->]|[f ->]]].
  - apply same_but_last_refl.
  - by apply mutate_same_but_last.
  - eapply same_but_last_trans; [by apply mutate_same_but_last|].
    apply publish_same_but_last. by apply mutate_store_ok.
Qed.

Lemma process_line_shape am st line :
  only_last am st \/ detached am st ->
  only_last am (process_line am st line) \/ detached am (process_line am st line).
Proof.
  intros [H|H]; [left; by apply process_line_only_last|right; by apply process_line_detached].
Qed.

Lemma process_lines_same_but_last am lines st :
  store_ok st -> only_last am st \/ detached am st ->
  same_but_last st (process_lines am st lines).
Proof.
  revert st. induction lines as [|l ls IH]; intros st Hok Ham; [apply same_but_last_refl|].
  simpl. eapply same_but_last_trans; [by apply process_line_same_but_last|].
  apply IH; [by apply process_line_store_ok|by apply process_line_shape].
Qed.

(** An object literal appended to the store: the list read through the
    store grows by that object. *)
Lemma snapshot_append st m :
  store_ok st ->
  snapshot (setMessages (fun prev => prev ++ [length (heap st)])
              (set_heap (heap st ++ [m]) st))
  = snapshot st ++ [Some m].
Proof.
  intros Hok. unfold snapshot. simpl. rewrite fmap_app. simpl. f_equal.
  - apply list_fmap_ext. intros i l Hl. apply lookup_app_l.
    unfold store_ok in Hok. rewrite Forall_forall in Hok.
    apply Hok. apply list_elem_of_lookup. eauto.
  - by rewrite lookup_app_r, Nat.sub_diag by lia.
Qed.

Lemma snapshot_on_error msg st :
  store_ok st ->
  snapshot (on_error msg st)
  = snapshot st ++ [Some {| role := assistant; content := js "Error: " ++ msg;
                           sources := VUndefined |}].
Proof. intros Hok. by apply (snapshot_append st). Qed.

Lemma snapshot_on_response st :
  store_ok st ->
  snapshot (on_response st)
  = snapshot st ++ [Some {| role := assistant; content := []; sources := VArray [] |}].
Proof. intros Hok. by apply (snapshot_append st). Qed.

Lemma snapshot_handleSubmit st :
  store_ok st ->
  snapshot (handleSubmit st)
  = if negb (truthy (trim (input st))) || loading st then snapshot st
    else snapshot st ++ [Some {| role := user; content := input st;
                                 sources := VUndefined |}].
Proof.
  intros Hok. unfold handleSubmit. case_match; [done|]. by apply (snapshot_append st).
Qed.

Lemma same_but_last_take st st' :
  same_but_last st st' ->
  take (length (messages st) - 1) (snapshot st')
  = take (length (messages st) - 1) (snapshot st).
Proof.
  intros [HL H]. apply list_eq. intros i.
  destruct (decide (i < length (messages st) - 1)%nat) as [Hi|Hi].
  - rewrite !lookup_take_lt by done. apply H. lia.
  - by rewrite !lookup_take_ge by lia.
Qed.

Lemma snapshot_length st : length (snapshot st) = length (messages st).
Proof. unfold snapshot. apply length_fmap. Qed.

(** The store is append-only but for its last element: an event never
    removes a message (the list read through the store does not get
    shorter) and never changes one before the last; outside the read loop
    it changes none at all. *)
Theorem store_append_only st e st' :
  state_ok st -> step st e = Some st' ->
  (length (snapshot st) <= length (snapshot st'))%nat
  /\ take (length (snapshot st) - 1) (snapshot st) `prefix_of` snapshot st'
  /\ ((forall am, running st <> Some (AwaitRead am)) ->
      snapshot st `prefix_of` snapshot st').
Proof.
  intros (Hok & _ & Ham) Hs.
  rewrite (snapshot_length st).
  assert (forall k, take (length (messages st) - 1) (snapshot st)
                    `prefix_of` snapshot st ++ k) as Happ.
  { intros k. etrans; [apply prefix_take|]. by apply prefix_app_r. }
  assert (forall k, snapshot st' = snapshot st ++ k ->
    (length (messages st) <= length (snapshot st'))%nat
    /\ take (length (messages st) - 1) (snapshot st) `prefix_of` snapshot st'
    /\ ((forall am, running st <> Some (AwaitRead am)) ->
        snapshot st `prefix_of` snapshot st')) as Hgrow.
  { intros k ->. split_and!; [|apply Happ|].
    - rewrite length_app, snapshot_length. lia.
    - intros _. by apply prefix_app_r. }
  destruct e as [v| |msg|msg| |bytes|msg| ]; simpl in Hs;
    destruct (running st) as [[|am]|] eqn:Hr; simplify_eq;
    try (apply (Hgrow []); by rewrite app_nil_r);
    try (eapply Hgrow; by apply snapshot_on_error);
    try (eapply Hgrow; by apply snapshot_on_response);
    try (pose proof (snapshot_handleSubmit _ Hok) as Hsub;
         destruct (negb (truthy (trim (input st))) || loading st);
         [apply (Hgrow []); by rewrite app_nil_r|by eapply Hgrow]).
  assert (same_but_last st (process_chunk am st bytes)) as Hsame.
  { apply process_lines_same_but_last; [done|]. by apply Ham. }
  split_and!; [|rewrite <- (same_but_last_take _ _ Hsame); apply prefix_take
               |intros Hn; by destruct (Hn _ eq_refl)].
  rewrite snapshot_length. destruct Hsame as [-> _]. done.
Qed.

(** ** The requests of a session *)

Lemma process_data_cases_role am data st st' :
  process_data am data st = Some st' ->
  st' = st
  \/ (exists f, (forall m, role (f m) = role m) /\ st' = mutate am f st)
  \/ (exists f, (forall m, role (f m) = role m) /\ st' = publish am (mutate am f st)).
Proof.
  unfold process_data. intros H.
  destruct (get data (js "type")) as [ty|]; [|done]. cbn [mbind option_bind] in H.
  repeat case_match; simplify_eq;
    repeat match goal with
    | H : _ ≫= _ = Some _ |- _ => apply bind_Some in H; destruct H as (? & ? & H)
    end; simplify_eq;
    first [ by left
          | right; left; eexists; split; [|reflexivity]; done
          | right; right; eexists; split; [|reflexivity]; done ].
Qed.

Lemma process_line_cases_role am st line :
  process_line am st line = st
  \/ (exists f, (forall m, role (f m) = role m)
                /\ process_line am st line = mutate am f st)
  \/ (exists f, (forall m, role (f m) = role m)
                /\ process_line am st line = publish am (mutate am f st)).
Proof.
  unfold process_line. destruct (startsWith _ line); [|by left].
  destruct (JSON_parse _) as [data|]; [|by left].
  destruct (process_data am data st) as [st'|] eqn:E; [|by left].
  simpl. by apply (process_data_cases_role am data).
Qed.

Lemma shape_not_before am st locs x :
  only_last am st \/ detached am st -> messages st = locs ++ [x] -> am ∉ locs.
Proof.
  intros [(_ & pre & y & Hm & Hpre)|(_ & Hn)] E.
  - rewrite E in Hm. by apply app_inj_tail in Hm as [-> _].
  - rewrite E in Hn. by apply not_elem_of_app in Hn as [? _].
Qed.

Lemma snapshot_snoc st pre o :
  snapshot st = pre ++ [o] ->
  exists locs x, messages st = locs ++ [x]
                 /\ (fun l => heap st !! l) <$> locs = pre /\ heap st !! x = o.
Proof.
  unfold snapshot. intros H.
  destruct (messages st) as [|l0 ls] using rev_ind.
  - by destruct pre.
  - rewrite fmap_app in H. simpl in H. apply app_inj_tail in H as [H1 H2]. eauto.
Qed.

Lemma mutate_answering am f st :
  (forall m, role (f m) = role m) ->
  only_last am st \/ detached am st -> answering am st ->
  answering am (mutate am f st)
  /\ user_contents (mutate am f st) = user_contents st.
Proof.
  intros Hf Hshape [Hrole (pre & m & Hsnap & Hm)].
  destruct (snapshot_snoc _ _ _ Hsnap) as (locs & x & E & Hpre & Hx).
  pose proof (shape_not_before _ _ _ _ Hshape E) as Hn.
  assert (snapshot (mutate am f st) = pre ++ [heap (mutate am f st) !! x]) as Hs'.
  { unfold snapshot. simpl. rewrite E, fmap_app. simpl. f_equal. rewrite <- Hpre.
    apply list_fmap_ext. intros i l Hl. apply list_lookup_alter_ne. intros ->.
    apply Hn. apply list_elem_of_lookup. eauto. }
  assert (exists m', heap (mutate am f st) !! x = Some m' /\ role m' = assistant)
    as (m' & Hx' & Hm').
  { simpl. destruct (decide (x = am)) as [->|Hne].
    - rewrite list_lookup_alter_eq, Hx. simpl. eexists; split; [done|]. by rewrite Hf.
    - rewrite list_lookup_alter_ne by done. eauto. }
  split; [split|].
  - simpl. rewrite list_lookup_alter_eq.
    destruct (heap st !! am) as [ma|]; [|done]. simpl in *. by rewrite Hf.
  - exists pre, m'. by rewrite Hs', Hx'.
  - unfold user_contents. rewrite Hs', Hsnap, Hx', !omap_app. f_equal.
    simpl. by rewrite Hm, Hm'.
Qed.

Lemma publish_answering am st :
  store_ok st -> only_last am st \/ detached am st -> answering am st ->
  answering am (publish am st)
  /\ user_contents (publish am st) = user_contents st.
Proof.
  intros Hok Hshape [Hrole (pre & m & Hsnap & Hm)].
  destruct (heap st !! am) as [ma|] eqn:Ha; [|done]. simpl in Hrole.
  destruct (snapshot_snoc _ _ _ Hsnap) as (locs & x & E & Hpre & Hx).
  assert (snapshot (publish am st) = pre ++ [Some ma]) as Hs'.
  { rewrite (publish_eq _ _ _ Ha). unfold snapshot. simpl.
    rewrite E, replaceLast_snoc, fmap_app. simpl. f_equal.
    - rewrite <- Hpre. apply list_fmap_ext. intros i l Hl. apply lookup_app_l.
      unfold store_ok in Hok. rewrite E, Forall_app, Forall_forall in Hok.
      apply Hok. apply list_elem_of_lookup. eauto.
    - by rewrite lookup_app_r, Nat.sub_diag by lia. }
  assert (role ma = assistant) as Hma by congruence.
  split; [split|].
  - by rewrite (publish_lookup _ _ _ _ Ha).
  - by exists pre, ma.
  - unfold user_contents. rewrite Hs', Hsnap, !omap_app. f_equal.
    simpl. by rewrite Hm, Hma.
Qed.

Lemma process_line_answering am st line :
  store_ok st -> only_last am st \/ detached am st -> answering am st ->
  answering am (process_line am st line)
  /\ user_contents (process_line am st line) = user_contents st.
Proof.
  intros Hok Hshape Hans.
  destruct (process_line_cases_role am st line) as [->|[(f & Hf & ->)|(f & Hf & ->)]].
  - done.
  - by apply mutate_answering.
  - destruct (mutate_answering am f st Hf Hshape Hans) as [Hans' Hu].
    destruct (publish_answering am (mutate am f st)) as [Hans'' Hu'];
      [by apply mutate_store_ok|by apply mutate_shape|done|].
    split; [done|congruence].
Qed.

Lemma process_lines_answering am lines st :
  store_ok st -> only_last am st \/ detached am st -> answering am st ->
  answering am (process_lines am st lines)
  /\ user_contents (process_lines am st lines) = user_contents st.
Proof.
  revert st. induction lines as [|l ls IH]; intros st Hok Hshape Hans; [done|].
  simpl. destruct (process_line_answering am st l Hok Hshape Hans) as [Hans' Hu].
  destruct (IH (process_line am st l)) as [Hans'' Hu'];
    [by apply process_line_store_ok|by apply process_line_shape|done|].
  split; [done|congruence].
Qed.

Lemma user_contents_append st o k :
  snapshot st = k ++ [o] -> user_contents st = omap user_content k ++ omap user_content [o].
Proof. intros H. unfold user_contents. by rewrite H, omap_app. Qed.

Lemma initial_session_ok collection id : session_ok id (initial collection id).
Proof.
  split_and!; [apply initial_ok|done|apply Forall_nil_2|done|done].
Qed.

Lemma session_setInput id v st : session_ok id st -> session_ok id (setInput v st).
Proof.
  intros (Hok & Hrest). split; [|done].
  apply (step_ok st (Change v)); [done|reflexivity].
Qed.

Lemma session_handleSubmit id st : session_ok id st -> session_ok id (handleSubmit st).
Proof.
  intros (Hok & Hid & Hreq & Hq & Hans).
  split; [apply (step_ok st Submit); [done|reflexivity]|].
  destruct Hok as (Hstore & Hflag & Hshape).
  unfold user_contents. rewrite (snapshot_handleSubmit _ Hstore). unfold handleSubmit.
  destruct (negb (truthy (trim (input st))) || loading st) eqn:G; [by split_and!|].
  apply orb_false_elim in G as [G _]. apply negb_false_iff in G. simpl.
  split_and!; [done| | |done].
  - apply Forall_app. split; [done|]. by apply Forall_singleton.
  - rewrite fmap_app, omap_app. simpl. by f_equal.
Qed.

Lemma session_on_error id msg st :
  session_ok id st -> is_Some (running st) -> session_ok id (on_error msg st).
Proof.
  intros (Hok & Hid & Hreq & Hq & Hans) [a Hr]. split.
  - destruct a as [|am].
    + apply (step_ok st (FetchRejected msg)); [done|]. simpl. by rewrite Hr.
    + apply (step_ok st (ReadRejected msg)); [done|]. simpl. by rewrite Hr.
  - destruct Hok as (Hstore & _). split_and!; [done|done| |done].
    unfold user_contents. rewrite snapshot_on_error, omap_app by done.
    simpl. by rewrite app_nil_r.
Qed.

Lemma session_on_response id st :
  session_ok id st -> running st = Some AwaitFetch -> session_ok id (on_response st).
Proof.
  intros (Hok & Hid & Hreq & Hq & Hans) Hr. split.
  - apply (step_ok st FetchResolved); [done|]. simpl. by rewrite Hr.
  - destruct Hok as (Hstore & _). split_and!; [done|done| |].
    + unfold user_contents. rewrite snapshot_on_response, omap_app by done.
      simpl. by rewrite app_nil_r.
    + intros am Ham. simpl in Ham. simplify_eq. split.
      * simpl. by rewrite lookup_app_r, Nat.sub_diag by lia.
      * rewrite snapshot_on_response by done. eauto.
Qed.

Lemma session_on_done id st :
  session_ok id st -> is_Some (running st) -> session_ok id (on_done st).
Proof.
  intros (Hok & Hid & Hreq & Hq & Hans) _. split; [|done].
  destruct Hok as (Hstore & _). split_and!; [done| |done].
  simpl. split; [done|]. by intros [? ?].
Qed.

Lemma session_process_chunk id am bytes st :
  session_ok id st -> running st = Some (AwaitRead am) ->
  session_ok id (process_chunk am st bytes).
Proof.
  intros (Hok & Hid & Hreq & Hq & Hans) Hr. split.
  - apply (step_ok st (ReadChunk bytes)); [done|]. simpl. by rewrite Hr.
  - destruct Hok as (Hstore & Hflag & Hshape).
    destruct (process_chunk_frame am st bytes) as (_ & _ & Hr' & Hf & _ & Hc & _).
    destruct (process_lines_answering am (split 10 (TextDecoder_decode bytes)) st)
      as [Hans' Hu]; [done|by apply Hshape|by apply Hans|].
    split_and!.
    + by rewrite Hc.
    + by rewrite Hf.
    + rewrite Hf. unfold process_chunk, process_text. by rewrite Hu.
    + intros am' Ham'. rewrite Hr', Hr in Ham'. by simplify_eq.
Qed.

Lemma step_session_ok id st e st' :
  session_ok id st -> step st e = Some st' -> session_ok id st'.
Proof.
  intros Hok Hs.
  destruct e as [v| |msg|msg| |bytes|msg| ]; simpl in Hs;
    destruct (running st) as [[|am]|] eqn:Hr; simplify_eq;
    eauto using session_setInput, session_handleSubmit, session_on_error,
      session_on_response, session_on_done, session_process_chunk.
Qed.

Lemma run_session_ok id es st st' :
  session_ok id st -> run st es = Some st' -> session_ok id st'.
Proof.
  revert st. induction es as [|e es IH]; intros st Hok Hr; simpl in Hr.
  - by simplify_eq.
  - destruct (step st e) as [st1|] eqn:E; [|done]. simpl in Hr.
    eauto using step_session_ok.
Qed.

(** Every request of a session carries the conversation id chosen when
    the component was mounted, [use_rag: true], and a query that is not
    blank. *)
Theorem requests_carry_session collection id es st :
  run (initial collection id) es = Some st ->
  conversationId st = id
  /\ Forall (fun r => use_rag r = true /\ conversation_id r = id
                     /\ truthy (trim (query r)) = true) (fetched st).
Proof.
  intros Hr.
  by destruct (run_session_ok id es _ _ (initial_session_ok collection id) Hr)
    as (_ & ? & ? & _).
Qed.

(** The queries sent are the contents of the user messages of the store,
    one request for each user message, in the same order and as typed. *)
Theorem one_request_per_user_message collection id es st :
  run (initial collection id) es = Some st ->
  query <$> fetched st = user_contents st.
Proof.
  intros Hr.
  by destruct (run_session_ok id es _ _ (initial_session_ok collection id) Hr)
    as (_ & _ & _ & ? & _).
Qed.

(** ** Records after an error record *)

Lemma process_line_error am st line text m :
  error_line line text -> heap st !! am = Some m ->
  heap (process_line am st line) !! am = Some (set_content (js "Error: " ++ text) m).
Proof.
  intros (data & Hl & He) Hm.
  rewrite (process_line_record _ _ _ _ Hl), (process_data_error _ _ _ _ He). simpl.
  apply publish_lookup. by apply mutate_lookup.
Qed.

(** An error record does not end the accumulation: the token records that
    follow it on the stream are appended to the error text. *)
Theorem tokens_after_error_appended am st m line text lines cs :
  heap st !! am = Some m -> error_line line text -> Forall2 token_line lines cs ->
  heap (process_lines am st (line :: lines)) !! am
  = Some {| role := role m; content := js "Error: " ++ text ++ concat cs;
            sources := sources m |}.
Proof.
  intros Hm He Hall.
  change {| role := role m; content := js "Error: " ++ text ++ concat cs;
            sources := sources m |}
    with (set_content (js "Error: " ++ text ++ concat cs) m).
  simpl.
  rewrite (tokens_append _ _ _ Hall _ _ (process_line_error _ _ _ _ _ He Hm)).
  rewrite set_content_set_content. cbn [content set_content].
  by rewrite <- app_assoc.
Qed.

(** ** The guard and the form *)

Lemma trimStart_nil s : trimStart s = [] <-> whitespace_only s.
Proof.
  unfold whitespace_only. induction s as [|c s IH]; simpl.
  - split; [intros _; apply Forall_nil_2|done].
  - destruct (is_js_whitespace c) eqn:E.
    + rewrite IH. split; [by apply Forall_cons_2|by intros [_ ?]%Forall_cons_1].
    + split; [done|]. intros [? _]%Forall_cons_1. congruence.
Qed.

Lemma trimStart_head s c r : trimStart s = c :: r -> is_js_whitespace c = false.
Proof.
  induction s as [|d s IH]; simpl; [done|].
  destruct (is_js_whitespace d) eqn:E; [done|]. intros ?; by simplify_eq.
Qed.

Lemma trimStart_suffix s : trimStart s `suffix_of` s.
Proof.
  induction s as [|c s IH]; simpl; [done|].
  destruct (is_js_whitespace c); [by apply suffix_cons_r|done].
Qed.

(** [trim] gives the empty string exactly on the strings of white space
    (the empty string among them). *)
Lemma trim_nil s : trim s = [] <-> whitespace_only s.
Proof.
  unfold trim. split.
  - intros H. apply (f_equal reverse) in H. rewrite reverse_involutive in H.
    change (reverse []) with (@nil Z) in H. apply trimStart_nil in H.
    unfold whitespace_only in H. rewrite Forall_reverse in H.
    destruct (trimStart s) as [|c r] eqn:E; [by apply trimStart_nil|].
    apply trimStart_head in E. apply Forall_cons_1 in H as [? _]. congruence.
  - intros H. apply trimStart_nil in H. by rewrite H.
Qed.

Lemma truthy_trim s : truthy (trim s) = false <-> whitespace_only s.
Proof. rewrite <- trim_nil. destruct (trim s); simpl; split; done. Qed.

Lemma handleSubmit_ignored st :
  handleSubmit st = st <-> negb (truthy (trim (input st))) || loading st = true.
Proof.
  unfold handleSubmit. destruct (negb _ || loading st) eqn:G; [done|].
  split; [|done]. intros H. apply (f_equal loading) in H. simpl in H.
  apply orb_false_elim in G as [_ G]. congruence.
Qed.

(** While no call is suspended, a submit is ignored exactly when the
    input consists of white space only. *)
Theorem idle_submit_ignored_iff_blank st :
  state_ok st -> running st = None ->
  (step st Submit = Some st <-> whitespace_only (input st)).
Proof.
  intros (_ & Hflag & _) Hr.
  assert (loading st = false) as Hl.
  { rewrite Hr in Hflag. destruct (loading st); [|done].
    by destruct (proj1 Hflag eq_refl). }
  simpl. rewrite <- truthy_trim. split.
  - intros H. simplify_eq. apply handleSubmit_ignored in H.
    rewrite Hl, orb_false_r in H. by apply negb_true_iff.
  - intros H. f_equal. apply handleSubmit_ignored. by rewrite H.
Qed.

(** The form shows what the handler will do: the button is disabled
    exactly in the states in which a submit is ignored, and the input is
    disabled, and the button reads ["..."], exactly while a call is
    suspended. *)
Theorem form_agrees_with_handler st :
  state_ok st ->
  (button_disabled (render_form st) = true <-> step st Submit = Some st)
  /\ (input_disabled (render_form st) = true <-> is_Some (running st))
  /\ (button_label (render_form st) = js "..." <-> is_Some (running st)).
Proof.
  intros (_ & Hflag & _). split_and!.
  - simpl. rewrite orb_comm. split.
    + intros H. f_equal. by apply handleSubmit_ignored.
    + intros H. simplify_eq. by apply handleSubmit_ignored.
  - done.
  - simpl. rewrite <- Hflag. destruct (loading st); split; done.
Qed.

(** ** What a query adds to the store *)


Lemma same_but_last_snoc st st' pre o pre' o' :
  same_but_last st st' ->
  snapshot st = pre ++ [o] -> snapshot st' = pre' ++ [o'] -> pre' = pre.
Proof.
  intros Hs H H'. pose proof (same_but_last_take _ _ Hs) as Ht.
  destruct Hs as [HL _].
  pose proof (snapshot_length st) as L. pose proof (snapshot_length st') as L'.
  rewrite H in L. rewrite H' in L'. rewrite length_app in L, L'. simpl in L, L'.
  replace (length (messages st) - 1)%nat with (length pre) in Ht by lia.
  rewrite H, take_app_length in Ht.
  replace (length pre) with (length pre') in Ht by lia.
  by rewrite H', take_app_length in Ht.
Qed.

Lemma run_chunks_store am chunks st :
  state_ok st -> running st = Some (AwaitRead am) -> answering am st ->
  exists st', run st (ReadChunk <$> chunks) = Some st'
    /\ same_frame st st' /\ same_but_last st st'
    /\ answering am st' /\ state_ok st'.
Proof.
  revert st. induction chunks as [|bytes chunks IH]; intros st Hok Hr Hans; simpl.
  - exists st. split_and!; auto using same_frame_refl, same_but_last_refl.
  - rewrite Hr. simpl.
    pose proof (process_chunk_frame am st bytes) as Hf.
    assert (state_ok (process_chunk am st bytes)) as Hok1.
    { apply (step_ok st (ReadChunk bytes)); [done|]. simpl. by rewrite Hr. }
    destruct Hok as (Hstore & _ & Hshape).
    pose proof (process_lines_same_but_last am (split 10 (TextDecoder_decode bytes))
                  st Hstore (Hshape _ Hr)) as Hs.
    destruct (process_lines_answering am (split 10 (TextDecoder_decode bytes)) st
                Hstore (Hshape _ Hr) Hans) as [Hans1 _].
    destruct (IH (process_chunk am st bytes)) as (st' & Hrun & Hf' & Hs' & Hans' & Hok');
      [done| |done|].
    { destruct Hf as (_ & _ & -> & _). done. }
    exists st'. split_and!; eauto using same_frame_trans, same_but_last_trans.
Qed.

(** A query that is accepted clears the input and appends to the store:
    first the user message with the input as typed, then, by the way the
    network answers, one error message, one assistant message, or the
    assistant message with what was received followed by an error
    message.  Nothing that was in the store before is changed. *)
Theorem query_appends_messages st o :
  state_ok st -> running st = None -> truthy (trim (input st)) = true ->
  exists st' k,
    run st (Submit :: events_of o) = Some st'
    /\ input st' = []
    /\ snapshot st'
       = snapshot st
         ++ Some {| role := user; content := input st; sources := VUndefined |} :: k
    /\ added_by o k.
Proof.
  intros Hok Hr Hi.
  assert (loading st = false) as Hl.
  { destruct Hok as (_ & Hflag & _). rewrite Hr in Hflag.
    destruct (loading st); [|done]. by destruct (proj1 Hflag eq_refl). }
  destruct (handleSubmit_accepted st Hi Hl) as (Hl1 & Hr1 & _).
  pose proof (step_ok st Submit _ Hok eq_refl) as Hok1.
  assert (snapshot (handleSubmit st)
          = snapshot st ++ [Some {| role := user; content := input st;
                                    sources := VUndefined |}]) as Hs1.
  { rewrite snapshot_handleSubmit by apply Hok. by rewrite Hi, Hl. }
  assert (input (handleSubmit st) = []) as Hi1.
  { unfold handleSubmit. by rewrite Hi, Hl. }
  cbn [run step]. cbn [mbind option_bind].
  set (st1 := handleSubmit st) in *.
  assert (store_ok st1) as Hstore1 by apply Hok1.
  destruct o as [msg|msg|chunks|chunks msg]; cbn [events_of run step added_by].
  - rewrite Hr1. cbn [mbind option_bind]. eexists _, _. split_and!; [done|done| |done].
    by rewrite snapshot_on_error, Hs1, <- app_assoc.
  - rewrite Hr1. cbn [mbind option_bind]. eexists _, _. split_and!; [done|done| |done].
    by rewrite snapshot_on_error, Hs1, <- app_assoc.
  - rewrite Hr1. cbn [mbind option_bind]. rewrite run_app.
    pose proof (step_ok st1 FetchResolved (on_response st1) Hok1) as Hok2.
    simpl in Hok2. rewrite Hr1 in Hok2. specialize (Hok2 eq_refl).
    destruct (run_chunks_store (length (heap st1)) chunks (on_response st1))
      as (st3 & -> & Hf & Hs & Hans & Hok3); [done|done| |].
    { split; [simpl; by rewrite lookup_app_r, Nat.sub_diag by lia|].
      rewrite snapshot_on_response by done. eauto. }
    destruct Hf as (Hi3 & _ & Hr3 & _). simpl in Hr3, Hi3.
    cbn [mbind option_bind run step]. rewrite Hr3. cbn [mbind option_bind].
    destruct Hans as (_ & pre & m & Hsnap & Hm).
    pose proof (same_but_last_snoc _ _ _ _ _ _ Hs
                  (snapshot_on_response st1 Hstore1) Hsnap) as ->.
    exists (on_done st3), [Some m]. split_and!; [done|by rewrite <- Hi1| |eauto].
    change (snapshot (on_done st3)) with (snapshot st3).
    by rewrite Hsnap, Hs1, <- app_assoc.
  - rewrite Hr1. cbn [mbind option_bind]. rewrite run_app.
    pose proof (step_ok st1 FetchResolved (on_response st1) Hok1) as Hok2.
    simpl in Hok2. rewrite Hr1 in Hok2. specialize (Hok2 eq_refl).
    destruct (run_chunks_store (length (heap st1)) chunks (on_response st1))
      as (st3 & -> & Hf & Hs & Hans & Hok3); [done|done| |].
    { split; [simpl; by rewrite lookup_app_r, Nat.sub_diag by lia|].
      rewrite snapshot_on_response by done. eauto. }
    destruct Hf as (Hi3 & _ & Hr3 & _). simpl in Hr3, Hi3.
    cbn [mbind option_bind run step]. rewrite Hr3. cbn [mbind option_bind].
    destruct Hans as (_ & pre & m & Hsnap & Hm).
    pose proof (same_but_last_snoc _ _ _ _ _ _ Hs
                  (snapshot_on_response st1 Hstore1) Hsnap) as ->.
    exists (on_error msg st3), [Some m; Some (error_message msg)].
    split_and!; [done|by rewrite <- Hi1| |eauto].
    rewrite snapshot_on_error by apply Hok3.
    by rewrite Hsnap, Hs1, <- !app_assoc.
Qed.

(** ** Chunks that hold whole lines *)

Lemma decode_text (t : list Z) :
  Forall is_scalar t -> head t <> Some 0xFEFF ->
  TextDecoder_decode (utf8_encode_all t) = utf16_all t.
Proof.
  intros Hs Hh. unfold TextDecoder_decode. fold utf16_all.
  rewrite <- (app_nil_r (utf8_encode_all t)), utf8_run_encode_all by done.
  cbn [utf8_run]. rewrite app_nil_r.
  destruct t as [|c t]; [done|]. simpl.
  destruct (Z.eqb_spec c 0xFEFF) as [->|]; [by destruct Hh|done].
Qed.

Lemma utf16_all_app (t u : list Z) : utf16_all (t ++ u) = utf16_all t ++ utf16_all u.
Proof. unfold utf16_all. apply bind_app. Qed.

Lemma process_text_newline am st (x z : jsstring) :
  process_text am (process_text am st (x ++ [10])) z
  = process_text am st (x ++ 10 :: z).
Proof.
  unfold process_text, process_lines.
  rewrite !split_app_sep, !foldl_app. simpl. done.
Qed.

Lemma process_chunk_whole_lines am st (t u : list Z) :
  whole_lines t -> Forall is_scalar u -> head u <> Some 0xFEFF ->
  process_chunk am (process_chunk am st (utf8_encode_all t)) (utf8_encode_all u)
  = process_chunk am st (utf8_encode_all (t ++ u)).
Proof.
  intros (Hs & Hh & Hl) Hu Hhu. unfold process_chunk.
  destruct t as [|c t0] using rev_ind; [done|].
  rewrite last_snoc in Hl. simplify_eq.
  rewrite !decode_text; try done.
  - rewrite !utf16_all_app. change (utf16_all [10]) with [10].
    rewrite <- app_assoc. apply process_text_newline.
  - by apply Forall_app.
  - by destruct t0.
Qed.

Lemma whole_lines_concat (ts : list (list Z)) :
  Forall whole_lines ts ->
  Forall is_scalar (concat ts) /\ head (concat ts) <> Some 0xFEFF.
Proof.
  induction 1 as [|t ts (Hs & Hh & Hl) _ [IH1 IH2]]; simpl.
  - split; [apply Forall_nil_2|done].
  - split; [by apply Forall_app|].
    destruct t as [|c t]; [done|]. done.
Qed.

Lemma run_whole_lines am ts st :
  running st = Some (AwaitRead am) -> Forall whole_lines ts ->
  run st (ReadChunk <$> (utf8_encode_all <$> ts))
  = run st [ReadChunk (utf8_encode_all (concat ts))].
Proof.
  intros Hr Hall. revert st Hr.
  induction Hall as [|t ts Ht Hts IH]; intros st Hr.
  - simpl. by rewrite Hr.
  - cbn [fmap list_fmap run step concat]. rewrite Hr. cbn [mbind option_bind].
    rewrite IH.
    + cbn [run step].
      destruct (process_chunk_frame am st (utf8_encode_all t)) as (_ & _ & -> & _).
      rewrite Hr. cbn [mbind option_bind]. f_equal.
      destruct (whole_lines_concat ts Hts).
      by apply process_chunk_whole_lines.
    + destruct (process_chunk_frame am st (utf8_encode_all t)) as (_ & _ & -> & _).
      done.
Qed.

(** When every chunk holds whole lines, the way the lines are grouped into
    chunks does not matter to what is accumulated: the reads of the chunks
    one after the other and the read of one chunk with all the lines both
    go through, and leave the in-progress message with the same content
    and sources, and the cells of the component and the number of messages
    the same. *)
Theorem whole_lines_regroup am ts st :
  running st = Some (AwaitRead am) -> Forall whole_lines ts ->
  exists st1 st2,
    run st (ReadChunk <$> (utf8_encode_all <$> ts)) = Some st1
    /\ run st [ReadChunk (utf8_encode_all (concat ts))] = Some st2
    /\ heap st1 !! am = heap st2 !! am
    /\ same_frame st1 st2.
Proof.
  intros Hr Hall. rewrite (run_whole_lines am ts st Hr Hall).
  cbn [run step]. rewrite Hr. cbn [mbind option_bind].
  eexists _, _. split_and!; done.
Qed.

(** ** The lines of a chunk *)

Lemma join_cons sep l ls :
  ls <> [] -> join sep (l :: ls) = l ++ sep :: join sep ls.
Proof. by destruct ls. Qed.

Lemma split_join sep (s : jsstring) : join sep (split sep s) = s.
Proof.
  induction s as [|c s IH]; simpl; [done|].
  pose proof (split_nonempty sep s) as Hne.
  destruct (Z.eqb_spec c sep) as [->|Hc].
  - rewrite join_cons by done. simpl. by rewrite IH.
  - destruct (split sep s) as [|l [|l' ls]]; [done|..]; simpl in *; by rewrite <- IH.
Qed.

Lemma split_pieces sep (s : jsstring) : Forall (fun l => sep ∉ l) (split sep s).
Proof.
  induction s as [|c s IH]; simpl.
  - apply Forall_singleton, not_elem_of_nil.
  - pose proof (split_nonempty sep s) as Hne.
    destruct (Z.eqb_spec c sep) as [->|Hc].
    + apply Forall_cons_2; [apply not_elem_of_nil|done].
    + destruct (split sep s) as [|l ls]; [done|].
      apply Forall_cons_1 in IH as [? ?]. apply Forall_cons_2; [|done].
      by apply not_elem_of_cons.
Qed.

Lemma split_length sep (s : jsstring) :
  length (split sep s) = S (length (filter (fun c => c = sep) s)).
Proof.
  induction s as [|c s IH]; simpl; [done|].
  pose proof (split_nonempty sep s) as Hne.
  destruct (Z.eqb_spec c sep) as [->|Hc].
  - rewrite filter_cons_True by done. simpl. by rewrite IH.
  - rewrite filter_cons_False by done. by destruct (split sep s).
Qed.

(** The lines the loop goes through hold no newline, there is one more of
    them than there are newlines in the chunk, and joined by newlines they
    are the chunk again. *)
Theorem split_lines (chunk : jsstring) :
  join 10 (split 10 chunk) = chunk
  /\ Forall (fun line => 10 ∉ line) (split 10 chunk)
  /\ length (split 10 chunk) = S (newlines chunk).
Proof. split_and!; [apply split_join|apply split_pieces|apply split_length]. Qed.

(** ** Line breaks and the decoder *)

Lemma newlines_cons c l :
  newlines (c :: l) = if c =? 10 then S (newlines l) else newlines l.
Proof.
  unfold newlines. destruct (Z.eqb_spec c 10).
  - by rewrite filter_cons_True.
  - by rewrite filter_cons_False.
Qed.

Lemma newlines_app l k : newlines (l ++ k) = (newlines l + newlines k)%nat.
Proof. unfold newlines. by rewrite filter_app, length_app. Qed.

Lemma utf8_lead_cases (b : Z) :
  (0 <= b <= 0x7F /\ utf8_lead b = Emit b)
  \/ (b <> 10 /\ utf8_lead b = DecodeError)
  \/ (b <> 10 /\ exists s, utf8_lead b = Continue s /\ utf8_open s).
Proof.
  destruct (Z.le_gt_cases 0 b), (Z.le_gt_cases b 0x7F);
    try (left; split; [lia|by apply utf8_lead_ascii]);
    try (right; left; split; [lia|]; unfold utf8_lead;
         rewrite ?(proj2 (Z.leb_gt 0 b)) by lia; done).
  destruct (Z.le_gt_cases 0xC2 b), (Z.le_gt_cases b 0xDF).
  { right; right. split; [lia|]. eexists. split; [by apply utf8_lead_2|].
    unfold utf8_open. simpl. lia. }
  all: destruct (Z.le_gt_cases 0xE0 b), (Z.le_gt_cases b 0xEF).
  all: try (right; right; split; [lia|]; eexists; split; [by apply utf8_lead_3|];
            unfold utf8_open; simpl;
            destruct (Z.eqb_spec b 0xE0), (Z.eqb_spec b 0xED); lia).
  all: destruct (Z.le_gt_cases 0xF0 b), (Z.le_gt_cases b 0xF4).
  all: try (right; right; split; [lia|]; eexists; split; [by apply utf8_lead_4|];
            unfold utf8_open; simpl;
            destruct (Z.eqb_spec b 0xF0), (Z.eqb_spec b 0xF4); lia).
  all: try (exfalso; lia).
  all: right; left; split; [lia|]; unfold utf8_lead;
    repeat match goal with
    | |- context [?x <=? ?y] =>
        first [ rewrite (proj2 (Z.leb_le x y)) by lia
              | rewrite (proj2 (Z.leb_gt x y)) by lia ]
    end; done.
Qed.

Lemma newlines_run (q : list Z) :
  forall s, s = utf8_init \/ utf8_open s -> newlines (utf8_run s q) = newlines q.
Proof.
  induction q as [|b q IH]; intros s Hs.
  - destruct Hs as [->|Ho]; [done|].
    rewrite utf8_run_open_end; [done|]. unfold utf8_open in Ho. lia.
  - assert (newlines (match utf8_lead b with
                      | Emit c => c :: utf8_run utf8_init q
                      | Continue s' => utf8_run s' q
                      | DecodeError => REPLACEMENT :: utf8_run utf8_init q
                      end) = newlines (b :: q)) as Hlead.
    { destruct (utf8_lead_cases b) as [[Hb ->]|[[Hb ->]|(Hb & s' & -> & Ho)]].
      - rewrite !newlines_cons, IH by auto. done.
      - rewrite !newlines_cons, IH by auto.
        rewrite (proj2 (Z.eqb_neq b 10)) by done. done.
      - rewrite newlines_cons, IH by auto.
        by rewrite (proj2 (Z.eqb_neq b 10)) by done. }
    destruct Hs as [->|Ho]; [by rewrite utf8_run_lead|].
    destruct Ho as (Hlo & Hup & Hcp & Hseen & Hbig).
    destruct (Z.lt_ge_cases b (lower_boundary s)) as [Hb|Hb];
      [|destruct (Z.lt_ge_cases (upper_boundary s) b) as [Hb'|Hb']].
    + cbn [utf8_run]. rewrite (proj2 (Z.eqb_neq (bytes_needed s) 0)) by lia.
      rewrite (proj2 (Z.ltb_lt _ _) Hb). cbn [orb].
      by rewrite newlines_cons, Hlead.
    + cbn [utf8_run]. rewrite (proj2 (Z.eqb_neq (bytes_needed s) 0)) by lia.
      rewrite (proj2 (Z.ltb_lt _ _) Hb'), orb_true_r.
      by rewrite newlines_cons, Hlead.
    + rewrite utf8_run_add_bits by lia.
      rewrite (newlines_cons b), (proj2 (Z.eqb_neq b 10)) by lia.
      destruct (Z.eqb_spec (bytes_seen s + 1) (bytes_needed s)) as [E|E].
      * rewrite newlines_cons, IH by auto.
        by rewrite (proj2 (Z.eqb_neq _ 10)) by lia.
      * apply IH. right. unfold utf8_open. simpl. lia.
Qed.

Lemma newlines_utf16 (c : Z) : newlines (utf16 c) = newlines [c].
Proof.
  unfold utf16. destruct (Z.leb_spec c 0xFFFF); [done|].
  rewrite !newlines_cons.
  pose proof (Z.shiftr_nonneg (c - 0x10000) 10).
  pose proof (Z.land_nonneg (c - 0x10000) 0x3FF).
  rewrite (proj2 (Z.eqb_neq (0xD800 + _) 10)), (proj2 (Z.eqb_neq (0xDC00 + _) 10)),
    (proj2 (Z.eqb_neq c 10)) by lia.
  done.
Qed.

Lemma newlines_utf16_all (cs : list Z) : newlines (utf16_all cs) = newlines cs.
Proof.
  unfold utf16_all. induction cs as [|c cs IH]; [done|].
  rewrite bind_cons, newlines_app, IH, newlines_utf16.
  change (c :: cs) with ([c] ++ cs). by rewrite newlines_app.
Qed.

Lemma newlines_strip_bom (cs : list Z) : newlines (strip_bom cs) = newlines cs.
Proof.
  destruct cs as [|c cs]; [done|]. simpl.
  destruct (Z.eqb_spec c 0xFEFF) as [->|]; [|done]. by rewrite newlines_cons.
Qed.

(** Whatever the bytes of a chunk are, its text has as many newlines as
    the chunk has newline bytes: a decoding error neither adds nor hides a
    line break, and the loop goes through one line more than there are
    newline bytes. *)
Theorem lines_follow_newline_bytes (value : list Z) :
  newlines (TextDecoder_decode value) = newlines value
  /\ length (split 10 (TextDecoder_decode value)) = S (newlines value).
Proof.
  assert (newlines (TextDecoder_decode value) = newlines value) as H.
  { unfold TextDecoder_decode. fold utf16_all.
    rewrite newlines_utf16_all, newlines_strip_bom. apply newlines_run. by left. }
  split; [done|]. rewrite <- H. apply split_length.
Qed.

End More.

Section MoreRendering.
Context {host : Host} {engine : Engine}.

Lemma snapshot_store_messages st :
  store_ok st -> snapshot st = Some <$> store_messages st.
Proof.
  unfold store_messages, snapshot, store_ok.
  induction (messages st) as [|l ls IH]; intros Hok; [done|].
  apply Forall_cons_1 in Hok as [Hl Hls]. cbn [fmap list_fmap omap list_omap].
  destruct (lookup_lt_is_Some_2 _ _ Hl) as [m Hm]. rewrite Hm.
  cbn [id fmap list_fmap]. f_equal. by apply IH.
Qed.

Lemma store_messages_snoc st k m :
  snapshot st = (Some <$> k) ++ [Some m] -> store_messages st = k ++ [m].
Proof.
  intros H. unfold store_messages. rewrite H, omap_app. simpl. f_equal.
  clear H. induction k as [|x k IH]; [done|].
  cbn [fmap list_fmap omap list_omap id]. by f_equal.
Qed.

Lemma mapM_snoc {A B} (f : A -> option B) (l : list A) (x : A) :
  mapM f (l ++ [x]) = ys ← mapM f l; y ← f x; Some (ys ++ [y]).
Proof.
  induction l as [|a l IH]; simpl.
  - by destruct (f x).
  - destruct (f a) as [b|]; [|done]. simpl. rewrite IH.
    destruct (mapM f l) as [ys|]; [|done]. simpl. by destruct (f x).
Qed.

Lemma MessageList_snoc (ms : list message) (m : message) :
  MessageList (ms ++ [m])
  = list ← MessageList ms; v ← render_message m;
    Some {| welcome := false; shown := shown list ++ [v] |}.
Proof.
  unfold MessageList. rewrite mapM_snoc.
  destruct (mapM render_message ms) as [ys|]; [|done]. simpl.
  destruct (render_message m) as [v|]; [|done]. simpl. by destruct ms.
Qed.

(** ** What [MessageList] shows of a stream *)

(** The value of [data.sources] is not checked: a sources record that
    carries a non-empty string, when it is the first record of the
    stream, leaves a store that [MessageList] cannot render ([map] is no
    function of a string). *)
Theorem string_sources_break_rendering st line s :
  store_ok st -> s <> [] -> sources_line line (VString s) ->
  ChatInterface (process_line (length (heap st)) (on_response st) line) = None.
Proof.
  intros Hok Hs Hl. unfold ChatInterface.
  rewrite (process_line_sources _ _ _ _ Hl).
  set (m := {| role := assistant; content := []; sources := VString s |}).
  assert (snapshot (mutate (length (heap st)) (set_sources (VString s)) (on_response st))
          = (Some <$> store_messages st) ++ [Some m]) as Hsnap.
  { unfold snapshot. simpl. rewrite fmap_app. simpl. f_equal.
    - rewrite <- snapshot_store_messages by done. unfold snapshot.
      apply list_fmap_ext. intros i l Hi.
      unfold store_ok in Hok. rewrite Forall_forall in Hok.
      assert (l < length (heap st))%nat as Hlt
        by (apply Hok, list_elem_of_lookup; eauto).
      rewrite list_lookup_alter_ne by lia. by apply lookup_app_l.
    - rewrite list_lookup_alter_eq, lookup_app_r, Nat.sub_diag by lia. done. }
  rewrite (store_messages_snoc _ _ _ Hsnap), MessageList_snoc.
  destruct (MessageList (store_messages st)); [|done]. simpl.
  unfold render_message, render_sources. simpl. by destruct s.
Qed.

Lemma same_but_last_last st st' pre o o' :
  same_but_last st st' ->
  snapshot st = pre ++ [o] -> last (snapshot st') = Some o' ->
  snapshot st' = pre ++ [o'].
Proof.
  intros Hs H Hl.
  destruct (snapshot st') as [|x k _] eqn:E using rev_ind; [done|].
  rewrite last_snoc in Hl. simplify_eq.
  by rewrite (same_but_last_snoc _ _ _ _ _ _ Hs H E).
Qed.

(** A sources record that comes before the first token record is shown
    with that token.  When React takes the [source] of every item of the
    list as a child (none is an object), the assistant message is rendered
    with the token as its text and one entry for each item, the item's
    [source]; when one of them is an object the render throws. *)
Theorem sources_before_token_shown st l1 l2 items names c :
  store_ok st ->
  sources_line l1 (VArray items) -> items <> [] ->
  mapM (fun source => get source (js "source")) items = Some names ->
  token_line l2 c ->
  MessageList (store_messages (process_lines (length (heap st)) (on_response st) [l1; l2]))
  = list ← MessageList (store_messages st);
    if forallb valid_child names
    then Some {| welcome := false;
                 shown := shown list
                          ++ [{| class_name := js "message message-assistant";
                                 markdown := c;
                                 sources_shown := SourcesBlock names |}] |}
    else None.
Proof.
  intros Hok H1 Hne Hnames H2.
  set (am := length (heap st)). set (st0 := on_response st).
  assert (store_ok st0) as Hok0 by (by apply (store_ok_append st)).
  pose proof (on_response_only_last st Hok) as Ho. fold am st0 in Ho.
  pose proof (process_lines_same_but_last am [l1; l2] st0 Hok0 (or_introl Ho)) as Hs.
  set (m := {| role := assistant; content := c; sources := VArray items |}).
  assert (last (snapshot (process_lines am st0 [l1; l2])) = Some (Some m)) as Hlast.
  { simpl. rewrite (process_line_sources _ _ _ _ H1).
    rewrite (process_line_token_last am _ l2 c
               {| role := assistant; content := []; sources := VArray items |} H2).
    - done.
    - apply (mutate_lookup am (set_sources (VArray items)) st0
               {| role := assistant; content := []; sources := VArray [] |}).
      unfold st0, am. simpl. by rewrite lookup_app_r, Nat.sub_diag by lia.
    - simpl. by destruct (messages st). }
  pose proof (same_but_last_last _ _ _ _ _ Hs (snapshot_on_response st Hok) Hlast)
    as Hsnap.
  rewrite (snapshot_store_messages st Hok) in Hsnap.
  rewrite (store_messages_snoc _ _ _ Hsnap), MessageList_snoc.
  destruct (MessageList (store_messages st)) as [list|]; [|done]. simpl.
  unfold render_message, render_sources. simpl.
  destruct items as [|item items]; [done|]. cbn [negb].
  rewrite Hnames. cbn [mbind option_bind].
  by destruct (forallb valid_child names).
Qed.

(** ** The welcome text *)

Lemma asked_handleSubmit st : asked st -> asked (handleSubmit st).
Proof.
  intros [Hiff Hrun]. unfold handleSubmit.
  destruct (negb (truthy (trim (input st))) || loading st); [done|].
  split; simpl.
  - split; intros E; [by destruct (fetched st)|by destruct (messages st)].
  - intros _. by destruct (fetched st).
Qed.

Lemma asked_append st m a :
  asked st -> is_Some (running st) ->
  asked (set_running a
           (setMessages (fun prev => prev ++ [length (heap st)])
              (set_heap (heap st ++ [m]) st))).
Proof.
  intros [Hiff Hrun] Hr. specialize (Hrun Hr). split; simpl.
  - split; intros E; [done|by destruct (messages st)].
  - done.
Qed.

Lemma asked_process_chunk am bytes st :
  asked st -> asked (process_chunk am st bytes).
Proof.
  intros [Hiff Hrun].
  destruct (process_chunk_frame am st bytes) as (_ & _ & Hr' & Hf & _ & _ & Hlen).
  unfold asked. rewrite Hr', Hf. split; [|done].
  rewrite Hiff. split; intros E; rewrite E in Hlen; simpl in Hlen.
  - by destruct (messages (process_chunk am st bytes)).
  - by destruct (messages st).
Qed.

Lemma asked_on_error msg st :
  asked st -> is_Some (running st) -> asked (on_error msg st).
Proof.
  intros [Hiff Hrun] Hr. specialize (Hrun Hr). split; simpl.
  - split; intros E; [done|by destruct (messages st)].
  - by intros [? ?].
Qed.

Lemma step_asked st e st' : asked st -> step st e = Some st' -> asked st'.
Proof.
  intros Ha Hs.
  destruct e as [v| |msg|msg| |bytes|msg| ]; simpl in Hs;
    destruct (running st) as [[|am]|] eqn:Hr; simplify_eq;
    try exact Ha;
    try (by apply asked_handleSubmit);
    try (by apply asked_process_chunk);
    try (apply asked_on_error; [done|by rewrite Hr]);
    try (apply (asked_append st); [done|by rewrite Hr]).
  destruct Ha as [Hiff Hrun]. split; [done|]. by intros [? ?].
Qed.

Lemma run_asked es st st' : asked st -> run st es = Some st' -> asked st'.
Proof.
  revert st. induction es as [|e es IH]; intros st Hok Hr; simpl in Hr.
  - by simplify_eq.
  - destruct (step st e) as [st1|] eqn:E; [|done]. simpl in Hr.
    eauto using step_asked.
Qed.

(** The welcome text is shown exactly as long as no request has been
    made: from the first accepted query on it is never shown again. *)
Theorem welcome_until_first_query collection id es st v :
  run (initial collection id) es = Some st ->
  MessageList (store_messages st) = Some v ->
  (welcome v = true <-> fetched st = []).
Proof.
  intros Hr Hv.
  assert (asked (initial collection id)) as Ha.
  { split; [done|]. by intros [? ?]. }
  destruct (run_asked _ _ _ Ha Hr) as [Hiff _].
  destruct (run_ok _ _ _ (initial_ok collection id) Hr) as (Hok & _).
  pose proof (snapshot_store_messages st Hok) as Hs.
  apply (f_equal length) in Hs. rewrite snapshot_length, length_fmap in Hs.
  unfold MessageList in Hv.
  destruct (mapM render_message (store_messages st)) as [views|]; [|done].
  simpl in Hv. simplify_eq. simpl. rewrite Hiff.
  destruct (store_messages st), (messages st); simpl in *; split; done.
Qed.

End MoreRendering.

(** ** The sidebar *)

Section SidebarProperties.
Context {host : Host} {engine : Engine}.

Lemma startsWith_CHECK s : startsWith CHECK (CHECK ++ s) = true.
Proof. apply startsWith_app. Qed.

Lemma startsWith_CROSS s : startsWith CHECK (CROSS ++ s) = false.
Proof. done. Qed.

(** When an upload settles, [uploading] is cleared whatever the answer
    is.  If the body says [success] and its fields can be written into
    the message, the counter goes up by one and the documents are fetched
    again, for the collection that is selected now, and the message is
    shown as a success; in every other case (a body without success, a
    body that cannot be read, a rejected request) nothing is fetched and
    the message is shown as an error. *)
Theorem upload_outcome sb i r url :
  posts sb !! i = Some url ->
  refreshTrigger sb < 2 ^ 53 ->
  exists sb',
    sidebar_step sb (PostSettled i r) = Some sb'
    /\ uploading sb' = false /\ posts sb' = delete i (posts sb)
    /\ sb_collection sb' = sb_collection sb
    /\ if succeeded r
       then gets sb' = gets sb ++ [documents_url (sb_collection sb)]
            /\ dl_loading sb' = true
            /\ refreshTrigger sb' = refreshTrigger sb + 1
            /\ upload_message_class sb' = Some (js "upload-message success")
       else gets sb' = gets sb
            /\ dl_loading sb' = dl_loading sb
            /\ refreshTrigger sb' = refreshTrigger sb
            /\ upload_message_class sb' = Some (js "upload-message error").
Proof.
  intros Hi Hn. simpl. rewrite Hi. simpl. eexists. split; [done|].
  destruct r as [msg|data]; simpl.
  { done. }
  destruct (read_upload data) as [text|text|v] eqn:Hr.
  - unfold handleUploadSuccess, plus_one. simpl.
    destruct (Z.ltb_spec (refreshTrigger sb) (2 ^ 53)); [|lia].
    destruct (Z.eqb_spec (refreshTrigger sb + 1) (refreshTrigger sb)); [lia|].
    simpl. repeat split.
    unfold read_upload in Hr. repeat case_match; simplify_eq.
    done.
  - simpl. repeat split.
    unfold read_upload in Hr. repeat case_match; simplify_eq.
    done.
  - done.
Qed.

Lemma delete_after {A} (l : list A) x k :
  delete (length l) (l ++ x :: k) = l ++ k.
Proof. induction l as [|a l IH]; simpl; [done|]. by rewrite IH. Qed.

(** The answers to [fetchDocuments] are not matched to the collection
    they were asked for.  When the collection is changed twice and the
    second request settles first, the list stops showing "Loading..."
    while the first request is still in flight; and when that one is
    answered, its documents are shown under the collection selected
    second. *)
Theorem stale_documents_shown sb c1 c2 r d v :
  c1 <> sb_collection sb -> c2 <> c1 ->
  get d (js "documents") = Some v -> ToBoolean v = true ->
  exists sb1 sb2,
    sidebar_run sb [SetCollection c1; SetCollection c2;
                    GetSettled (S (length (gets sb))) r] = Some sb1
    /\ dl_loading sb1 = false
    /\ gets sb1 = gets sb ++ [documents_url c1]
    /\ sidebar_step sb1 (GetSettled (length (gets sb)) (Answered d)) = Some sb2
    /\ sb_collection sb2 = c2
    /\ docs sb2 = v /\ documents sb2 = v
    /\ gets sb2 = gets sb.
Proof.
  intros H1 H2 Hd Hv.
  cbn [sidebar_run sidebar_step mbind option_bind].
  unfold setCollection.
  rewrite (bool_decide_eq_false_2 _ H1). simpl.
  rewrite (bool_decide_eq_false_2 _ H2). simpl.
  rewrite <- app_assoc. simpl.
  rewrite (lookup_app_r _ _ (S (length (gets sb)))); [|lia].
  replace (S (length (gets sb)) - length (gets sb))%nat with 1%nat by lia.
  simpl.
  eexists _, _. split; [done|]. simpl.
  assert (Hdel : delete (S (length (gets sb)))
                   (gets sb ++ [documents_url c1; documents_url c2])
                 = gets sb ++ [documents_url c1]).
  { pose proof (delete_after (gets sb ++ [documents_url c1]) (documents_url c2) [])
      as E.
    rewrite length_app, <- app_assoc, Nat.add_1_r in E. simpl in E.
    by rewrite E, app_nil_r. }
  rewrite Hdel.
  split; [done|]. split; [done|].
  rewrite (lookup_app_r _ _ (length (gets sb))); [|lia].
  rewrite Nat.sub_diag. simpl.
  split; [done|]. simpl. rewrite Hd. simpl. rewrite Hv. simpl.
  repeat split.
  by rewrite delete_after, app_nil_r.
Qed.

(** What [DocumentList] shows once an answer has been received depends on
    [data.documents] alone, which is not checked: nothing for a value that
    is falsy (missing, [null], empty) and for the empty array; the items
    of a non-empty array when React takes each of them as a child, and an
    error in the render when one of them is an object; a TypeError in the
    render for a truthy value that is neither an array nor an object, such
    as a string. *)
Theorem documents_answer_rendered sb i url d v :
  gets sb !! i = Some url -> get d (js "documents") = Some v ->
  exists sb',
    sidebar_step sb (GetSettled i (Answered d)) = Some sb'
    /\ (ToBoolean v = false \/ v = VArray [] -> render_documents sb' = Some NoDocuments)
    /\ (forall x l, v = VArray (x :: l) ->
        render_documents sb'
        = if forallb valid_child (x :: l) then Some (Documents (x :: l)) else None)
    /\ (ToBoolean v = true -> (forall items, v <> VArray items) ->
        (forall ms, v <> VObject ms) -> render_documents sb' = None).
Proof.
  intros Hi Hd. simpl. rewrite Hi. simpl. eexists. split; [done|].
  unfold render_documents. simpl. rewrite Hd. simpl.
  split_and!.
  - intros [Hv| ->]; [by rewrite Hv|done].
  - by intros x l ->.
  - intros Hv Ha Ho. rewrite Hv.
    destruct v as [| |b|t|s|items|ms]; try done.
    + by destruct s.
    + by destruct (Ha items).
    + by destruct (Ho ms).
Qed.

Lemma sidebar_mounted_ok : sidebar_ok sidebar_mounted.
Proof.
  unfold sidebar_ok. simpl. repeat split; try done; try lia.
Qed.

Lemma fetchDocuments_ok sb :
  documents sb = docs sb ->
  (uploading sb = true <-> posts sb <> []) ->
  (length (posts sb) <= 1)%nat ->
  0 <= refreshTrigger sb <= 2 ^ 53 ->
  sidebar_ok (fetchDocuments sb).
Proof.
  intros. unfold sidebar_ok. simpl. repeat split; try tauto; try lia.
  intros _ E. by destruct (gets sb).
Qed.

Lemma sidebar_step_ok sb e sb' :
  sidebar_ok sb -> sidebar_step sb e = Some sb' -> sidebar_ok sb'.
Proof.
  intros Hok Hs. pose proof Hok as (Hd & Hl & Hu & Hp & Hn).
  destruct e as [c|file|i r|i r]; simpl in Hs.
  - simplify_eq. unfold setCollection. case_bool_decide; [done|].
    by apply fetchDocuments_ok.
  - destruct (uploading sb) eqn:Eu; [done|]. simplify_eq.
    unfold handleFileUpload. destruct file; simpl; [|done].
    assert (posts sb = []) as ->.
    { destruct (posts sb); [done|]. by destruct Hu as [_ Hu]; discriminate Hu. }
    unfold sidebar_ok. simpl. repeat split; try done; try lia.
  - destruct (gets sb !! i) eqn:Hi; simplify_eq/=.
    unfold sidebar_ok. simpl. repeat split; try tauto; try lia.
    destruct r as [msg|d]; simpl; [done|].
    destruct (get d (js "documents")); simpl; done.
  - destruct (posts sb !! i) as [url|] eqn:Hi; simplify_eq/=.
    assert (delete i (posts sb) = []) as Hdel.
    { destruct (posts sb) as [|p [|q ps]]; simpl in *; try lia; [done|].
      destruct i; simpl in *; [done|]. by rewrite lookup_nil in Hi. }
    assert (Hf : forall m, sidebar_ok
              (set_upload false m (set_posts (delete i (posts sb)) sb))).
    { intros m. unfold sidebar_ok. simpl. rewrite Hdel.
      repeat split; try tauto; try done; simpl; lia. }
    destruct r as [msg|data]; simpl; [apply Hf|].
    destruct (read_upload data) as [text|text|v]; try apply Hf.
    unfold handleUploadSuccess, plus_one. simpl.
    destruct (Z.ltb_spec (refreshTrigger sb) (2 ^ 53)).
    + destruct (Z.eqb_spec (refreshTrigger sb + 1) (refreshTrigger sb)); [lia|].
      unfold sidebar_ok. simpl. rewrite Hdel.
      repeat split; try tauto; try done; simpl; try lia.
      intros _ E. by destruct (gets sb).
    + rewrite Z.eqb_refl. apply Hf.
Qed.

Lemma sidebar_run_ok es : forall sb sb',
  sidebar_ok sb -> sidebar_run sb es = Some sb' -> sidebar_ok sb'.
Proof.
  induction es as [|e es IH]; intros sb sb' Hok Hr; simpl in Hr.
  - by simplify_eq.
  - destruct (sidebar_step sb e) as [sb1|] eqn:Hs; simplify_eq/=.
    eapply IH; [|done]. by eapply sidebar_step_ok.
Qed.

(** In every state the sidebar reaches after it is mounted: the documents
    [App] holds are those [DocumentList] shows; "Loading..." is shown
    only while a request for documents is in flight; and [uploading] is
    set exactly while an upload is in flight, of which there is at most
    one. *)
Theorem sidebar_invariant es sb :
  sidebar_run sidebar_mounted es = Some sb ->
  documents sb = docs sb
  /\ (dl_loading sb = true -> gets sb <> [])
  /\ (uploading sb = true <-> posts sb <> [])
  /\ (length (posts sb) <= 1)%nat.
Proof.
  intros Hr.
  destruct (sidebar_run_ok es _ _ sidebar_mounted_ok Hr) as (?&?&?&?&?).
  done.
Qed.

End SidebarProperties.


(** ** More concrete streams *)

Lemma store_append_only_witness :
  (length (snapshot streaming)
   <= length (snapshot (process_chunk 1 streaming (line_Hel ++ [10%Z]))))%nat
  /\ take (length (snapshot streaming) - 1) (snapshot streaming)
    `prefix_of` snapshot (process_chunk 1 streaming (line_Hel ++ [10]))
  /\ ((forall am, running streaming <> Some (AwaitRead am)) ->
      snapshot streaming
        `prefix_of` snapshot (process_chunk 1 streaming (line_Hel ++ [10]))).
Proof.
  apply (store_append_only streaming (ReadChunk (line_Hel ++ [10]))).
  - apply streaming_ok.
  - reflexivity.
Defined.

(** The placeholder is replaced by the first token, and nothing else of
    the store is touched. *)
Example first_token_replaces_placeholder :
  snapshot streaming = [Some question; Some placeholder]
  /\ snapshot (process_chunk 1 streaming (line_Hel ++ [10]))
     = [Some question; Some (set_content (js "Hel") placeholder)].
Proof. by vm_compute. Qed.

Lemma requests_carry_session_witness :
  conversationId streaming = js "k3x9q2m1a"
  /\ Forall (fun r => use_rag r = true /\ conversation_id r = js "k3x9q2m1a"
                     /\ truthy (trim (query r)) = true) (fetched streaming).
Proof.
  apply (requests_carry_session (js "default") (js "k3x9q2m1a")
           [Change (js "hi"); Submit; FetchResolved] streaming).
  reflexivity.
Defined.

Lemma one_request_per_user_message_witness :
  query <$> fetched streaming = user_contents streaming.
Proof.
  apply (one_request_per_user_message (js "default") (js "k3x9q2m1a")
           [Change (js "hi"); Submit; FetchResolved] streaming).
  reflexivity.
Defined.

(** The request of the example, and the query of a second one made after
    the first stream has ended. *)
Example requests_of_two_queries :
  fetched streaming
  = [{| query := js "hi"; req_collection := js "default";
        conversation_id := js "k3x9q2m1a"; use_rag := true |}]
  /\ (fun st => query <$> fetched st) <$> run streaming
       [ReadChunk (line_Hel ++ [10]); ReadDone; Change (js " more? "); Submit]
     = Some [js "hi"; js " more? "].
Proof. by vm_compute. Qed.

Lemma tokens_after_error_appended_witness :
  heap (process_lines 1 streaming [line_error; line_A; line_B]) !! 1%nat
  = Some {| role := assistant; content := js "Error: boomAB"; sources := VArray [] |}.
Proof.
  apply (tokens_after_error_appended 1 streaming placeholder line_error (js "boom")
           [line_A; line_B] [js "A"; js "B"]).
  - reflexivity.
  - record.
  - repeat constructor; record.
Defined.

Lemma blank_ok : state_ok (setInput (js "   ") typed).
Proof.
  apply (run_ok [Change (js "hi"); Change (js "   ")]
           (initial (js "default") (js "k3x9q2m1a")));
    [apply initial_ok|reflexivity].
Qed.

Lemma idle_submit_ignored_iff_blank_witness :
  step (setInput (js "   ") typed) Submit = Some (setInput (js "   ") typed)
  <-> whitespace_only (input (setInput (js "   ") typed)).
Proof.
  apply (idle_submit_ignored_iff_blank (setInput (js "   ") typed)).
  - apply blank_ok.
  - reflexivity.
Defined.

Lemma form_agrees_with_handler_witness :
  (button_disabled (render_form streaming) = true
   <-> step streaming Submit = Some streaming)
  /\ (input_disabled (render_form streaming) = true <-> is_Some (running streaming))
  /\ (button_label (render_form streaming) = js "..." <-> is_Some (running streaming)).
Proof.
  apply (form_agrees_with_handler streaming).
  apply streaming_ok.
Defined.

(** The form before the submit, while the answer streams, and for a blank
    input. *)
Example forms :
  render_form typed
  = {| input_value := js "hi"; input_disabled := false;
       button_disabled := false; button_label := js "Send" |}
  /\ render_form streaming
     = {| input_value := []; input_disabled := true;
          button_disabled := true; button_label := js "..." |}
  /\ render_form (setInput (js "   ") typed)
     = {| input_value := js "   "; input_disabled := false;
          button_disabled := true; button_label := js "Send" |}.
Proof. by vm_compute. Qed.

Lemma query_appends_messages_witness :
  exists st' k,
    run typed (Submit :: events_of (StreamFails [line_Hel ++ [10]] (js "network error")))
    = Some st'
    /\ input st' = []
    /\ snapshot st'
       = snapshot typed
         ++ Some {| role := user; content := input typed; sources := VUndefined |} :: k
    /\ added_by (StreamFails [line_Hel ++ [10]] (js "network error")) k.
Proof.
  apply (query_appends_messages typed
           (StreamFails [line_Hel ++ [10]] (js "network error"))).
  - apply typed_ok.
  - reflexivity.
  - reflexivity.
Defined.

Lemma whole_lines_regroup_witness :
  exists st1 st2,
    run streaming
      (ReadChunk <$> (utf8_encode_all <$> [line_Hel ++ [10]; line_lo ++ [10]]))
    = Some st1
    /\ run streaming
         [ReadChunk (utf8_encode_all (concat [line_Hel ++ [10]; line_lo ++ [10]]))]
       = Some st2
    /\ heap st1 !! 1%nat = heap st2 !! 1%nat
    /\ same_frame st1 st2.
Proof.
  apply (whole_lines_regroup 1 [line_Hel ++ [10]; line_lo ++ [10]] streaming).
  - reflexivity.
  - repeat apply Forall_cons_2; try apply Forall_nil_2;
      (split; [scalars|split; [by vm_compute|by vm_compute]]).
Defined.

(** The lines of a chunk of two records and of a chunk that is no text. *)
Example lines_of_chunks :
  split 10 (TextDecoder_decode (line_A ++ [10] ++ line_B ++ [10]))
  = [line_A; line_B; []]
  /\ split 10 (TextDecoder_decode [0xFF; 10; 0xE2; 10; 0x82])
     = [[0xFFFD]; [0xFFFD]; [0xFFFD]].
Proof. by vm_compute. Qed.

Lemma submitted_ok : store_ok (handleSubmit typed).
Proof.
  apply (run_ok [Submit] typed); [apply typed_ok|reflexivity].
Qed.

Lemma string_sources_break_rendering_witness :
  ChatInterface
    (process_line (length (heap (handleSubmit typed)))
       (on_response (handleSubmit typed)) line_sources_text)
  = None.
Proof.
  apply (string_sources_break_rendering (handleSubmit typed) line_sources_text (js "abc")).
  - apply submitted_ok.
  - discriminate.
  - record.
Defined.

Lemma sources_before_token_shown_witness :
  MessageList
    (store_messages
       (process_lines (length (heap (handleSubmit typed)))
          (on_response (handleSubmit typed)) [line_sources_ab; line_Hel]))
  = list ← MessageList (store_messages (handleSubmit typed));
    if forallb valid_child [VString (js "a"); VString (js "b")]
    then Some {| welcome := false;
                 shown := shown list
                          ++ [{| class_name := js "message message-assistant";
                                 markdown := js "Hel";
                                 sources_shown :=
                                   SourcesBlock [VString (js "a"); VString (js "b")] |}] |}
    else None.
Proof.
  apply (sources_before_token_shown (handleSubmit typed) line_sources_ab line_Hel
           [source "a"; source "b"] [VString (js "a"); VString (js "b")] (js "Hel")).
  - apply submitted_ok.
  - record.
  - discriminate.
  - reflexivity.
  - record.
Defined.

(** What is rendered while the answer streams: the question, and the
    placeholder with an empty text and no sources block. *)
Example streaming_view :
  MessageList (store_messages streaming)
  = Some {| welcome := false;
            shown := [{| class_name := js "message message-user";
                         markdown := js "hi";
                         sources_shown := NotShown VUndefined |};
                      {| class_name := js "message message-assistant";
                         markdown := [];
                         sources_shown := NotShown (VBool false) |}] |}.
Proof. by vm_compute. Qed.

(** A source whose [source] is an object cannot be rendered. *)
Example object_source_breaks_rendering :
  (st ← run typed
          [Submit; FetchResolved;
           ReadChunk (jsq "data: {'type':'sources','sources':[{'source':{'a':1}}]}"
                      ++ [10]);
           ReadDone];
   MessageList (store_messages st))
  = None.
Proof. by vm_compute. Qed.

Lemma welcome_until_first_query_witness :
  welcome {| welcome := false;
             shown := [{| class_name := js "message message-user";
                          markdown := js "hi";
                          sources_shown := NotShown VUndefined |};
                       {| class_name := js "message message-assistant";
                          markdown := [];
                          sources_shown := NotShown (VBool false) |}] |} = true
  <-> fetched streaming = [].
Proof.
  apply (welcome_until_first_query (js "default") (js "k3x9q2m1a")
           [Change (js "hi"); Submit; FetchResolved] streaming).
  - reflexivity.
  - by vm_compute.
Defined.

(** ** The sidebar on concrete answers *)

Lemma upload_outcome_witness :
  exists sb',
    sidebar_step file_chosen (PostSettled 0 (Answered upload_accepted)) = Some sb'
    /\ uploading sb' = false /\ posts sb' = delete 0%nat (posts file_chosen)
    /\ sb_collection sb' = sb_collection file_chosen
    /\ if succeeded (Answered upload_accepted)
       then gets sb' = gets file_chosen ++ [documents_url (sb_collection file_chosen)]
            /\ dl_loading sb' = true
            /\ refreshTrigger sb' = refreshTrigger file_chosen + 1
            /\ upload_message_class sb' = Some (js "upload-message success")
       else gets sb' = gets file_chosen
            /\ dl_loading sb' = dl_loading file_chosen
            /\ refreshTrigger sb' = refreshTrigger file_chosen
            /\ upload_message_class sb' = Some (js "upload-message error").
Proof.
  apply (upload_outcome file_chosen 0 (Answered upload_accepted)
           (upload_url (js "default"))).
  - reflexivity.
  - by vm_compute.
Defined.

(** The messages of an upload that went through, of one the server
    refused, and of a body that is [null]. *)
Example upload_messages :
  upload_message <$> sidebar_step file_chosen (PostSettled 0 (Answered upload_accepted))
  = Some (CHECK ++ js " Uploaded a.txt (3 chunks)")
  /\ upload_message <$> sidebar_step file_chosen
       (PostSettled 0 (Answered (VObject [(js "success", VBool false);
                                          (js "error", VString (js "too large"))])))
     = Some (CROSS ++ js " Error: too large")
  /\ upload_message <$> sidebar_step file_chosen (PostSettled 0 (Answered VNull))
     = Some (CROSS ++ js " Upload failed: Cannot read properties of null (reading 'success')").
Proof. by vm_compute. Qed.

Lemma stale_documents_shown_witness :
  exists sb1 sb2,
    sidebar_run sidebar_mounted
      [SetCollection (js "a"); SetCollection (js "b");
       GetSettled (S (length (gets sidebar_mounted))) (Rejected (js "Failed to fetch"))]
    = Some sb1
    /\ dl_loading sb1 = false
    /\ gets sb1 = gets sidebar_mounted ++ [documents_url (js "a")]
    /\ sidebar_step sb1 (GetSettled (length (gets sidebar_mounted)) (Answered documents_of_a))
       = Some sb2
    /\ sb_collection sb2 = js "b"
    /\ docs sb2 = VArray [VString (js "a.txt")]
    /\ documents sb2 = VArray [VString (js "a.txt")]
    /\ gets sb2 = gets sidebar_mounted.
Proof.
  apply (stale_documents_shown sidebar_mounted (js "a") (js "b")
           (Rejected (js "Failed to fetch")) documents_of_a
           (VArray [VString (js "a.txt")])).
  - by vm_compute.
  - by vm_compute.
  - reflexivity.
  - reflexivity.
Defined.

Lemma documents_answer_rendered_witness :
  exists sb',
    sidebar_step sidebar_mounted
      (GetSettled 0 (Answered (VObject [(js "documents", VString (js "a.txt"))])))
    = Some sb'
    /\ (ToBoolean (VString (js "a.txt")) = false \/ VString (js "a.txt") = VArray [] ->
        render_documents sb' = Some NoDocuments)
    /\ (forall x l, VString (js "a.txt") = VArray (x :: l) ->
        render_documents sb'
        = if forallb valid_child (x :: l) then Some (Documents (x :: l)) else None)
    /\ (ToBoolean (VString (js "a.txt")) = true ->
        (forall items, VString (js "a.txt") <> VArray items) ->
        (forall ms, VString (js "a.txt") <> VObject ms) ->
        render_documents sb' = None).
Proof.
  apply (documents_answer_rendered sidebar_mounted 0 (documents_url (js "default"))
           (VObject [(js "documents", VString (js "a.txt"))]) (VString (js "a.txt"))).
  - reflexivity.
  - reflexivity.
Defined.

(** The list for an answer with one document, for an answer without the
    field, for a field that holds a string, and for a document that is an
    object. *)
Example document_lists :
  (sb ← sidebar_step sidebar_mounted (GetSettled 0 (Answered documents_of_a));
   render_documents sb)
  = Some (Documents [VString (js "a.txt")])
  /\ (sb ← sidebar_step sidebar_mounted (GetSettled 0 (Answered (VObject [])));
      render_documents sb)
     = Some NoDocuments
  /\ (sb ← sidebar_step sidebar_mounted
             (GetSettled 0 (Answered (VObject [(js "documents", VString (js "a.txt"))])));
      render_documents sb)
     = None
  /\ (sb ← sidebar_step sidebar_mounted
             (GetSettled 0 (Answered (VObject [(js "documents",
                                               VArray [VObject [(js "a", VNumber (js "1"))]])])));
      render_documents sb)
     = None.
Proof. by vm_compute. Qed.

Lemma sidebar_invariant_witness :
  exists sb,
    sidebar_run sidebar_mounted
      [ChooseFile true; PostSettled 0 (Answered upload_accepted);
       GetSettled 0 (Answered documents_of_a)] = Some sb
    /\ documents sb = docs sb
    /\ (dl_loading sb = true -> gets sb <> [])
    /\ (uploading sb = true <-> posts sb <> [])
    /\ (length (posts sb) <= 1)%nat.
Proof.
  eexists. split; [vm_compute; reflexivity|].
  apply (sidebar_invariant
           [ChooseFile true; PostSettled 0 (Answered upload_accepted);
            GetSettled 0 (Answered documents_of_a)]).
  vm_compute. reflexivity.
Defined.

(** A second file cannot be chosen while an upload is in flight. *)
Example no_second_upload :
  sidebar_step file_chosen (ChooseFile true) = None.
Proof. by vm_compute. Qed.

(** The reference engine on numbers and strings at the edges. *)
Example zeros_and_signs :
  is_zero_ref <$> [js "0"; js "-0"; js "0.000"; js "0e5"; js "1e-400"; js "2e-324";
                   js "3e-324"; js "5e-324"; js "1"; js "0.1"; js "-1.5E3"]
  = [true; true; true; true; true; true; false; false; false; false; false]
  /\ positive_string <$> [js "2"; js " 12 "; js "0x10"; js "0b0"; js ".5"; js "1.";
                          js "+.5e1"; js "Infinity"; js "1e-400"; js "-1"; js "";
                          js "abc"; js "."; js "1e"; js "0x"; js "+-5"; js "infinity"]
    = [true; true; true; false; true; true; true; true; false; false; false;
       false; false; false; false; false; false]
  /\ positive_ref <$> [VArray []; VArray [VNumber (js "5")];
                       VArray [VNumber (js "1"); VNumber (js "2")];
                       VObject []; VObject [(js "toString", VNull)]; VBool true; VNull]
    = [Some false; Some true; Some false; Some false; None; Some true; Some false].
Proof. by vm_compute. Qed.
